(** * go-retry: backoff middleware (backoff.go)

    A shallow embedding of the backoff decorators of package [retry]
    (file backoff.go) and the properties of its specification.

    Layout:
    - machine integers ([int64], [uint64]) and [time.Duration];
    - IEEE binary64 arithmetic as used by [WithJitterPercent];
    - the [error] values the package inspects;
    - the effects of a call: the process-wide random source, the monotonic
      clock, the variables captured by a closure, panics;
    - the functions of backoff.go, in source order;
    - the properties. *)

From Stdlib Require Import ZArith Lia List String Bool.
From Stdlib Require Import SpecFloat.
Import ListNotations.

Open Scope Z_scope.
Open Scope list_scope.

(** ** Machine integers *)

(** Go's [int64]: two's complement, arithmetic wraps around silently. *)
Module Int64.
Definition min : Z := - 2 ^ 63.
Definition max : Z := 2 ^ 63 - 1.

Definition in_range (z : Z) : Prop := min <= z <= max.

Definition wrap (z : Z) : Z := (z + 2 ^ 63) mod 2 ^ 64 - 2 ^ 63.

Definition add (a b : Z) : Z := wrap (a + b).
Definition sub (a b : Z) : Z := wrap (a - b).
Definition mul (a b : Z) : Z := wrap (a * b).

(** Clamping, as [time.Time.Sub] does on overflow. *)
Definition saturate (z : Z) : Z :=
  if z <? min then min else if max <? z then max else z.
End Int64.

(** Go's [uint64]. *)
Module Uint64.
Definition max : Z := 2 ^ 64 - 1.
Definition in_range (z : Z) : Prop := 0 <= z <= max.
Definition wrap (z : Z) : Z := z mod 2 ^ 64.
Definition add (a b : Z) : Z := wrap (a + b).
(** The conversion [int64(j)] of a [uint64] reinterprets the bits. *)
Definition to_int64 (z : Z) : Z := Int64.wrap z.
End Uint64.

(** [time.Duration] is an [int64] count of nanoseconds. *)
Definition Duration : Type := Z.

Definition Nanosecond : Duration := 1.
Definition Millisecond : Duration := 1000000.
Definition Second : Duration := 1000000000.

(** ** binary64 floating point

    [float64] values are IEEE 754 binary64 numbers; the operations are the
    round-to-nearest-even ones of the standard library's specification. *)
Module Float64.
Definition prec : Z := 53.
Definition emax : Z := 1024.

Definition t : Type := spec_float.

(** [float64(x)] for an integer [x]. *)
Definition of_int (z : Z) : t := binary_normalize prec emax z 0 false.

Definition mul : t -> t -> t := SFmul prec emax.
Definition div : t -> t -> t := SFdiv prec emax.
Definition sub : t -> t -> t := SFsub prec emax.

(** The integer part of a finite float (the fraction is discarded). *)
Definition truncate (f : t) : option Z :=
  match f with
  | S754_zero _ => Some 0
  | S754_finite s m e =>
      let a := if 0 <=? e then Z.pos m * 2 ^ e else Z.pos m / 2 ^ (- e) in
      Some (if s then - a else a)
  | S754_infinity _ | S754_nan => None
  end.

(** [int64(f)]: truncation towards zero.  When the truncated value does
    not fit (or [f] is infinite or NaN) the conversion still succeeds and
    its result is implementation-dependent: [unrepresentable f]. *)
Definition to_int64 (unrepresentable : t -> Z) (f : t) : Z :=
  match truncate f with
  | Some z =>
      if (Int64.min <=? z) && (z <=? Int64.max) then z
      else unrepresentable f
  | None => unrepresentable f
  end.

(** On amd64 the unrepresentable cases give the "integer indefinite"
    value, the smallest [int64]. *)
Definition amd64 (_ : t) : Z := Int64.min.
End Float64.

(** ** Errors

    An [error] is the nil interface value or one of the error values the
    package can meet: a plain error without [Unwrap] (as [errors.New]
    makes), a foreign wrapper with a message and an [Unwrap] method (as
    [fmt.Errorf] with [%w] makes), or a pointer to the package's own
    [retryableError] struct.  Values are compared structurally. *)
Inductive error : Type :=
| nil
| errorString (s : string)
| wrapError (msg : string) (err : error)
| retryableError (err : error).

Definition error_is_nil (e : error) : bool :=
  match e with nil => true | _ => false end.

(** ** Outcome of a call *)

Inductive result (A : Type) : Type :=
| Ok (a : A)
| Panic (msg : string)
| Blocked.

Arguments Ok {A} a.
Arguments Panic {A} msg.
Arguments Blocked {A}.

(** ** Process state

    The global source of [math/rand] is a stream of draws with a position;
    the monotonic clock is a nanosecond reading. *)
Record World : Type := mkWorld {
  rand_draws : nat -> Z;
  rand_pos : nat;
  mono_now : Z
}.

Definition Time : Type := Z.

(** A computation runs in a [World] and over the variables [S] it can
    reach; it returns, panics, or blocks for ever. *)
Definition M (S A : Type) : Type := World -> S -> result (A * World * S).

Definition ret {S A} (a : A) : M S A := fun w s => Ok (a, w, s).

Definition bind {S A B} (m : M S A) (k : A -> M S B) : M S B :=
  fun w s =>
    match m w s with
    | Ok (a, w', s') => k a w' s'
    | Panic msg => Panic msg
    | Blocked => Blocked
    end.

Declare Scope go_scope.
Delimit Scope go_scope with go.

Notation "x <- c1 ;; c2" := (bind c1 (fun x => c2))
  (at level 61, c1 at next level, right associativity) : go_scope.
Notation "' pat <- c1 ;; c2" :=
  (bind c1 (fun x => match x with pat => c2 end))
  (at level 61, pat pattern, c1 at next level, right associativity) : go_scope.
Notation "c1 ;;; c2" := (bind c1 (fun _ => c2))
  (at level 61, right associativity) : go_scope.

Open Scope go_scope.

Definition panic {S A} (msg : string) : M S A := fun _ _ => Panic msg.

(** [defer d; body]: [d] runs when [body] returns.  It also runs when
    [body] panics; the panic then continues, and no state outlives it. *)
Definition defer {S A} (d : M S unit) (body : M S A) : M S A :=
  fun w s =>
    match body w s with
    | Ok (a, w', s') =>
        match d w' s' with
        | Ok (_, w'', s'') => Ok (a, w'', s'')
        | Panic msg => Panic msg
        | Blocked => Blocked
        end
    | Panic msg => Panic msg
    | Blocked => Blocked
    end.

(** The world after one draw from the random source. *)
Definition drawn (w : World) : World :=
  mkWorld (rand_draws w) (Datatypes.S (rand_pos w)) (mono_now w).

(** [rand.Int63n(n)]: panics unless [n > 0], else a value of [[0, n)]. *)
Definition rand_Int63n {S} (n : Z) : M S Z :=
  fun w s =>
    if n <=? 0 then Panic "invalid argument to Int63n"
    else Ok (rand_draws w (rand_pos w) mod n, drawn w, s).

(** [time.Now()], as far as its monotonic reading goes. *)
Definition time_Now {S} : M S Time := fun w s => Ok (mono_now w, w, s).

(** [time.Since(start)]: the monotonic difference, clamped to [int64]. *)
Definition time_Since {S} (start : Time) : M S Duration :=
  fun w s => Ok (Int64.saturate (mono_now w - start), w, s).

(** *** Variables captured by a closure

    A closure that owns variables of type [P] and wraps code over [S] runs
    over [P * S]; the wrapped code cannot reach [P]. *)
Definition load {P S} : M (P * S) P := fun w ps => Ok (fst ps, w, ps).

Definition store {P S} (p : P) : M (P * S) unit :=
  fun w ps => Ok (tt, w, (p, snd ps)).

Definition wrapped {P S A} (m : M S A) : M (P * S) A :=
  fun w ps =>
    match m w (snd ps) with
    | Ok (a, w', s') => Ok (a, w', (fst ps, s'))
    | Panic msg => Panic msg
    | Blocked => Blocked
    end.

(** [sync.Mutex]: [true] when held. *)
Definition Mutex : Type := bool.

Definition Mutex_Lock (m : Mutex) : result Mutex :=
  if m then Blocked else Ok true.

Definition Mutex_Unlock (m : Mutex) : result Mutex :=
  if m then Ok false else Panic "sync: unlock of unlocked mutex".

(** ** backoff.go *)

(** [init] seeds the global random source from the wall clock.  The draws
    of a [World] are arbitrary, which covers every seed. *)

(** [Backoff] is an interface that backs off: [Next] takes the error and
    returns the duration to wait and the processed error.  [BackoffFunc]
    is a backoff expressed as a function. *)
Record Backoff (S : Type) : Type := BackoffFunc {
  Next : error -> M S (Duration * error)
}.

Arguments BackoffFunc {S} _.
Arguments Next {S} _ _.

(** [Stop] signals the backoff to stop retrying. *)
Definition Stop : Duration := -1.

(** [IsStopped] reports whether the backoff shall stop. *)
Definition IsStopped (delay : Duration) : bool := delay <? 0.

(** Variables captured by the closure of [WithMaxRetries]. *)
Record maxRetriesVars : Type := mkMaxRetriesVars {
  l : Mutex;
  attempt : Z
}.

(** [var l sync.Mutex; var attempt uint64]: the zero values. *)
Definition maxRetriesVars_zero : maxRetriesVars :=
  {| l := false; attempt := 0 |}.

Definition l_Lock {S} : M (maxRetriesVars * S) unit :=
  fun w ps =>
    match Mutex_Lock (l (fst ps)) with
    | Ok m => Ok (tt, w, ({| l := m; attempt := attempt (fst ps) |}, snd ps))
    | Panic msg => Panic msg
    | Blocked => Blocked
    end.

Definition l_Unlock {S} : M (maxRetriesVars * S) unit :=
  fun w ps =>
    match Mutex_Unlock (l (fst ps)) with
    | Ok m => Ok (tt, w, ({| l := m; attempt := attempt (fst ps) |}, snd ps))
    | Panic msg => Panic msg
    | Blocked => Blocked
    end.

Definition load_attempt {S} : M (maxRetriesVars * S) Z :=
  v <- load ;; ret (attempt v).

Definition store_attempt {S} (a : Z) : M (maxRetriesVars * S) unit :=
  v <- load ;; store {| l := l v; attempt := a |}.

Section Middleware.

Context {S : Type}.

(** [WithJitter] wraps a backoff and adds the specified jitter:
    "+/- j"; the value can never be less than 0. *)
Definition WithJitter (j : Duration) (next : Backoff S) : Backoff S :=
  BackoffFunc (fun err =>
    '(delay, err) <- Next next err ;;
    if IsStopped delay then ret (Stop, err)
    else
      r <- rand_Int63n (Int64.mul j 2) ;;
      let diff := Int64.sub r j in
      let delay := Int64.add delay diff in
      let delay := if IsStopped delay then 0 else delay in
      ret (delay, err)).

(** How [int64(f)] behaves where the language leaves it open. *)
Variable unrepresentable : Float64.t -> Z.

(** [WithJitterPercent] wraps a backoff and adds the specified jitter
    percentage: "+/- j%". *)
Definition WithJitterPercent (j : Z) (next : Backoff S) : Backoff S :=
  BackoffFunc (fun err =>
    '(delay, err) <- Next next err ;;
    if IsStopped delay then ret (Stop, err)
    else
      (* Get a value between -j and j, then convert to a percentage *)
      r <- rand_Int63n (Int64.mul (Uint64.to_int64 j) 2) ;;
      let top := Int64.sub r (Uint64.to_int64 j) in
      let pct :=
        Float64.sub (Float64.of_int 1)
          (Float64.div (Float64.of_int top) (Float64.of_int 100)) in
      let delay :=
        Float64.to_int64 unrepresentable
          (Float64.mul (Float64.of_int delay) pct) in
      let delay := if IsStopped delay then 0 else delay in
      ret (delay, err)).

(** [WithMaxRetries] executes the backoff function up until the maximum
    attempts. *)
Definition WithMaxRetries (max : Z) (next : Backoff S)
  : Backoff (maxRetriesVars * S) :=
  BackoffFunc (fun err =>
    l_Lock ;;;
    defer l_Unlock
      (attempt <- load_attempt ;;
       if max <=? attempt then ret (Stop, err)
       else
         store_attempt (Uint64.add attempt 1) ;;;
         wrapped (Next next err))).

(** [WithCappedDuration] sets a maximum on the duration returned from
    the next backoff. *)
Definition WithCappedDuration (cap : Duration) (next : Backoff S)
  : Backoff S :=
  BackoffFunc (fun err =>
    '(delay, err) <- Next next err ;;
    if IsStopped delay then ret (Stop, err)
    else
      let delay := if (delay <=? 0) || (cap <? delay) then cap else delay in
      ret (delay, err)).

(** The closure [WithMaxDuration] returns, over its captured [start]. *)
Definition WithMaxDuration_func (timeout : Duration) (start : Time)
    (next : Backoff S) : Backoff S :=
  BackoffFunc (fun err =>
    since <- time_Since start ;;
    let diff := Int64.sub timeout since in
    if diff <=? 0 then ret (Stop, err)
    else
      '(delay, err) <- Next next err ;;
      if IsStopped delay then ret (Stop, err)
      else
        let delay :=
          if (delay <=? 0) || (diff <? delay) then diff else delay in
        ret (delay, err)).

(** [WithMaxDuration] sets a maximum on the total amount of time a
    backoff should execute; the start instant is read at construction. *)
Definition WithMaxDuration (timeout : Duration) (next : Backoff S)
  : M S (Backoff S) :=
  start <- time_Now ;;
  ret (WithMaxDuration_func timeout start next).

End Middleware.

(** A pointer to a [retryableError] struct, with its field [err]. *)
Record retryableError_ptr : Type := mkRetryableError { err_field : error }.

(** The pointer as an [error] interface value. *)
Definition as_error (e : retryableError_ptr) : error :=
  retryableError (err_field e).

(** [RetryableError] marks an error as retryable. *)
Definition RetryableError (err : error) : error :=
  if error_is_nil err then nil
  else as_error (mkRetryableError err).

(** [Unwrap] implements error wrapping. *)
Definition Unwrap (e : retryableError_ptr) : error := err_field e.

(** [err.Error()] on an interface value, dispatched on its dynamic type;
    on the nil interface the call panics.  The [retryableError] case is
    the method of backoff.go. *)
Fixpoint Error (e : error) : result string :=
  match e with
  | nil => Panic "invalid memory address or nil pointer dereference"
  | errorString s => Ok s
  | wrapError msg _ => Ok msg
  | retryableError err =>
      match err with
      | nil => Ok "retryable: <nil>"%string
      | _ =>
          match Error err with
          | Ok m => Ok ("retryable: " ++ m)%string
          | Panic msg => Panic msg
          | Blocked => Blocked
          end
      end
  end.

(** [errors.Unwrap]: the result of the value's [Unwrap] method, nil when
    it has none. *)
Definition errors_Unwrap (e : error) : error :=
  match e with
  | wrapError _ x => x
  | retryableError x => x
  | nil | errorString _ => nil
  end.

(** [errors.As(err, &rerr)] for [rerr] of type pointer to
    [retryableError]: the first value of that type on the [Unwrap] chain
    of [err]. *)
Fixpoint errors_As (err : error) : option retryableError_ptr :=
  match err with
  | nil => None
  | errorString _ => None
  | wrapError _ x => errors_As x
  | retryableError x => Some (mkRetryableError x)
  end.

(** [WithRetryable] wraps a backoff function and adds a check for a
    [RetryableError]. *)
Definition WithRetryable {S} (next : Backoff S) : Backoff S :=
  BackoffFunc (fun err =>
    match errors_As err with
    | None => ret (Stop, err)
    | Some rerr => Next next (Unwrap rerr)
    end).

(** ** Calling a backoff repeatedly

    [calls b errs] calls [b.Next] once for every error of [errs], in
    order, and collects what the calls return. *)
Fixpoint calls {S} (b : Backoff S) (errs : list error)
  : M S (list (Duration * error)) :=
  match errs with
  | [] => ret []
  | e :: rest =>
      r <- Next b e ;;
      rs <- calls b rest ;;
      ret (r :: rs)
  end.

(** ** The error chain, as the specification speaks of it *)

(** The values met when following [Unwrap] from [err], outermost first. *)
Fixpoint chain (err : error) : list error :=
  match err with
  | nil => []
  | errorString _ => [err]
  | wrapError _ x => err :: chain x
  | retryableError x => err :: chain x
  end.

(** A retryable-marked error. *)
Definition is_marked (e : error) : bool :=
  match e with retryableError _ => true | _ => false end.

(** ** Backoffs used in examples *)

(** [BackoffFunc(func(err error) (time.Duration, error) { return d, err })],
    the backoff of the package's tests. *)
Definition constant (d : Duration) : Backoff unit :=
  BackoffFunc (fun err => ret (d, err)).

(** A backoff that must not be called. *)
Definition unreachable : Backoff unit :=
  BackoffFunc (fun _ => panic "inner backoff invoked").

(** A world whose random source always draws [r], at clock reading [now]. *)
Definition world (r : Z) (now : Z) : World := mkWorld (fun _ => r) 0%nat now.

(** ** Quantities the properties speak of *)

(** The time budget left in world [w] for a backoff constructed at
    reading [start]: [timeout - time.Since(start)], in [Duration]
    arithmetic. *)
Definition remaining (timeout : Duration) (start : Time) (w : World)
  : Duration :=
  Int64.sub timeout (Int64.saturate (mono_now w - start)).

(** [time.Duration(float64(delay) * (1 - float64(top)/100.0))]. *)
Definition scaled (unrepresentable : Float64.t -> Z) (delay top : Z) : Z :=
  Float64.to_int64 unrepresentable
    (Float64.mul (Float64.of_int delay)
       (Float64.sub (Float64.of_int 1)
          (Float64.div (Float64.of_int top) (Float64.of_int 100)))).


(** ** Stacks of middleware *)

(** A stateless decorator of backoff.go with its configuration. *)
Inductive middleware : Type :=
| Jitter (j : Duration)
| JitterPercent (j : Z)
| CappedDuration (cap : Duration).

(** The decorator applied to a backoff. *)
Definition decorate {S} (unrepresentable : Float64.t -> Z)
    (m : middleware) (next : Backoff S) : Backoff S :=
  match m with
  | Jitter j => WithJitter j next
  | JitterPercent j => WithJitterPercent unrepresentable j next
  | CappedDuration cap => WithCappedDuration cap next
  end.

(** [stack [m1; ...; mn] next] is [m1(...(mn(next)))]: the head of the
    list is the outermost decorator. *)
Definition stack {S} (unrepresentable : Float64.t -> Z)
    (ms : list middleware) (next : Backoff S) : Backoff S :=
  fold_right (decorate unrepresentable) next ms.

(** [err] under foreign wrappers with the messages [msgs], outermost
    first. *)
Definition wrapped_in (msgs : list string) (err : error) : error :=
  fold_right wrapError err msgs.

(** [n] marks around [err], and [n] filters around [next]. *)
Definition marks (n : nat) (err : error) : error :=
  Nat.iter n retryableError err.

Definition filters {S} (n : nat) (next : Backoff S) : Backoff S :=
  Nat.iter n WithRetryable next.

(** * Properties *)

(** ** Arithmetic of the machine integers *)

Lemma Int64_wrap_id (z : Z) : Int64.in_range z -> Int64.wrap z = z.
Proof.
  unfold Int64.in_range, Int64.wrap, Int64.min, Int64.max. intros H.
  rewrite Z.mod_small; lia.
Qed.

Lemma Int64_wrap_in_range (z : Z) : Int64.in_range (Int64.wrap z).
Proof.
  unfold Int64.in_range, Int64.wrap, Int64.min, Int64.max.
  pose proof (Z.mod_pos_bound (z + 2 ^ 63) (2 ^ 64) ltac:(lia)). lia.
Qed.

Lemma Uint64_wrap_id (z : Z) : Uint64.in_range z -> Uint64.wrap z = z.
Proof.
  unfold Uint64.in_range, Uint64.wrap, Uint64.max. intros H.
  apply Z.mod_small. lia.
Qed.

(** ** WithMaxRetries *)

Section MaxRetries.

Context {S : Type}.
Variable max : Z.
Variable next : Backoff S.
Hypothesis max_uint64 : Uint64.in_range max.

(** Below [max] a call increments the counter and hands over to the
    wrapped backoff. *)
Lemma WithMaxRetries_delegates (c : Z) (err : error) (w : World) (s : S) :
  0 <= c < max ->
  Next (WithMaxRetries max next) err w (mkMaxRetriesVars false c, s) =
  match Next next err w s with
  | Ok (r, w', s') => Ok (r, w', (mkMaxRetriesVars false (c + 1), s'))
  | Panic msg => Panic msg
  | Blocked => Blocked
  end.
Proof.
  intros Hc.
  unfold WithMaxRetries, Next at 1, bind, defer, l_Lock, l_Unlock,
    load_attempt, store_attempt, load, store, wrapped, bind, ret; simpl.
  destruct (max <=? c) eqn:E; [apply Z.leb_le in E; lia|].
  simpl. unfold Uint64.add. rewrite Uint64_wrap_id.
  - destruct (Next next err w s) as [[[r w'] s']| |]; reflexivity.
  - unfold Uint64.in_range in *. lia.
Qed.

(** From [max] on a call stops, whatever the wrapped backoff is. *)
Lemma WithMaxRetries_stops (c : Z) (err : error) (w : World) (s : S) :
  max <= c ->
  Next (WithMaxRetries max next) err w (mkMaxRetriesVars false c, s) =
  Ok ((Stop, err), w, (mkMaxRetriesVars false c, s)).
Proof.
  intros Hc.
  unfold WithMaxRetries, Next at 1, bind, defer, l_Lock, l_Unlock,
    load_attempt, store_attempt, load, store, wrapped, bind, ret; simpl.
  destruct (max <=? c) eqn:E; [reflexivity|apply Z.leb_gt in E; lia].
Qed.

Lemma calls_stopped (c : Z) (errs : list error) (w : World) (s : S) :
  max <= c ->
  calls (WithMaxRetries max next) errs w (mkMaxRetriesVars false c, s) =
  Ok (map (fun e => (Stop, e)) errs, w, (mkMaxRetriesVars false c, s)).
Proof.
  intros Hc. induction errs as [|e errs IH]; [reflexivity|].
  cbn [calls map]. unfold bind at 1.
  rewrite WithMaxRetries_stops by assumption.
  unfold bind. rewrite IH. reflexivity.
Qed.

Lemma calls_counted (errs1 errs2 : list error) :
  forall (c : Z) (w : World) (s : S),
    0 <= c ->
    c + Z.of_nat (List.length errs1) <= max ->
    errs2 = [] \/ c + Z.of_nat (List.length errs1) = max ->
    calls (WithMaxRetries max next) (errs1 ++ errs2) w
      (mkMaxRetriesVars false c, s) =
    match calls next errs1 w s with
    | Ok (rs, w', s') =>
        Ok (rs ++ map (fun e => (Stop, e)) errs2, w',
            (mkMaxRetriesVars false (c + Z.of_nat (List.length errs1)), s'))
    | Panic msg => Panic msg
    | Blocked => Blocked
    end.
Proof.
  induction errs1 as [|e errs1 IH]; intros c w s H0 Hle Hcase.
  - cbn [app calls List.length Z.of_nat] in *. unfold ret.
    rewrite Z.add_0_r in *.
    destruct Hcase as [->|Hmax].
    + reflexivity.
    + rewrite calls_stopped by lia. reflexivity.
  - cbn [List.length] in *. rewrite Nat2Z.inj_succ in *.
    cbn [app calls]. unfold bind at 1 3.
    rewrite WithMaxRetries_delegates by lia.
    destruct (Next next e w s) as [[[r w'] s']| |]; try reflexivity.
    unfold bind.
    rewrite IH;
      [| lia | lia | destruct Hcase; [left; assumption | right; lia]].
    destruct (calls next errs1 w' s') as [[[rs w''] s'']| |];
      try reflexivity.
    unfold ret. cbn [app].
    replace (c + 1 + Z.of_nat (List.length errs1))
      with (c + Z.succ (Z.of_nat (List.length errs1))) by lia.
    reflexivity.
Qed.

End MaxRetries.

(** C1.  [WithMaxRetries(max, next)] keeps a counter that starts at 0.
    While the counter is below [max], a call to [Next] adds one to it and
    delegates to [next], returning what [next] returns (and panicking or
    blocking when [next] does).  Once the counter has reached [max], every
    call returns [Stop] with the error it was given; the counter, the
    world and the variables of [next] are left as they were, and the
    outcome does not depend on [next], which is therefore not invoked.
    Counting from construction: the first [max] calls are the delegating
    ones, all later ones stop. *)
Theorem WithMaxRetries_first_max_calls_delegate
    {S : Type} (max : Z) (next : Backoff S) :
  Uint64.in_range max ->
  attempt maxRetriesVars_zero = 0 /\
  l maxRetriesVars_zero = false /\
  (forall c err w s,
     0 <= c < max ->
     Next (WithMaxRetries max next) err w (mkMaxRetriesVars false c, s) =
     match Next next err w s with
     | Ok (r, w', s') => Ok (r, w', (mkMaxRetriesVars false (c + 1), s'))
     | Panic msg => Panic msg
     | Blocked => Blocked
     end) /\
  (forall (other : Backoff S) c err w s,
     max <= c ->
     Next (WithMaxRetries max other) err w (mkMaxRetriesVars false c, s) =
     Ok ((Stop, err), w, (mkMaxRetriesVars false c, s))) /\
  (forall errs1 errs2 w s,
     Z.of_nat (List.length errs1) <= max ->
     errs2 = [] \/ Z.of_nat (List.length errs1) = max ->
     calls (WithMaxRetries max next) (errs1 ++ errs2) w
       (maxRetriesVars_zero, s) =
     match calls next errs1 w s with
     | Ok (rs, w', s') =>
         Ok (rs ++ map (fun e => (Stop, e)) errs2, w',
             (mkMaxRetriesVars false (Z.of_nat (List.length errs1)), s'))
     | Panic msg => Panic msg
     | Blocked => Blocked
     end).
Proof.
  intros Hmax. repeat split.
  - intros c err w s Hc. apply WithMaxRetries_delegates; assumption.
  - intros other c err w s Hc. apply WithMaxRetries_stops; assumption.
  - intros errs1 errs2 w s Hle Hcase.
    exact (calls_counted max next Hmax errs1 errs2 0 w s
             (Z.le_refl 0) Hle Hcase).
Qed.

(** The test of the package: three retries over a one-second backoff,
    then two more calls. *)
Lemma WithMaxRetries_first_max_calls_delegate_witness :
  Uint64.in_range 3 /\
  Next (WithMaxRetries 3 (constant Second)) (errorString "oops")
    (world 0 0) (mkMaxRetriesVars false 2, tt) =
  Ok ((Second, errorString "oops"), world 0 0, (mkMaxRetriesVars false 3, tt))
  /\
  Next (WithMaxRetries 3 unreachable) (errorString "oops")
    (world 0 0) (mkMaxRetriesVars false 3, tt) =
  Ok ((Stop, errorString "oops"), world 0 0, (mkMaxRetriesVars false 3, tt))
  /\
  calls (WithMaxRetries 3 (constant Second)) [nil; nil; nil; nil; nil]
    (world 0 0) (maxRetriesVars_zero, tt) =
  Ok ([(Second, nil); (Second, nil); (Second, nil); (Stop, nil); (Stop, nil)],
      world 0 0, (mkMaxRetriesVars false 3, tt)).
Proof.
  assert (H3 : Uint64.in_range 3) by (unfold Uint64.in_range, Uint64.max; lia).
  split; [exact H3|].
  destruct (WithMaxRetries_first_max_calls_delegate 3 (constant Second) H3)
    as (_ & _ & Hbelow & Hstop & Hseq).
  split; [|split].
  - rewrite (Hbelow 2 (errorString "oops") (world 0 0) tt) by lia.
    reflexivity.
  - apply (Hstop unreachable 3). lia.
  - exact (Hseq [nil; nil; nil] [nil; nil] (world 0 0) tt
             ltac:(simpl; lia) (or_intror eq_refl)).
Defined.

(** ** The retryable mark *)

Lemma Error_retryableError (e : error) :
  e <> nil ->
  Error (retryableError e) =
  match Error e with
  | Ok m => Ok ("retryable: " ++ m)%string
  | Panic msg => Panic msg
  | Blocked => Blocked
  end.
Proof.
  intros Hne. destruct e; [contradiction| | |]; reflexivity.
Qed.

Lemma Error_of_non_nil (e : error) :
  e <> nil -> exists m, Error e = Ok m.
Proof.
  induction e as [|s|msg x IH|x IH]; intros Hne.
  - contradiction.
  - exists s. reflexivity.
  - exists msg. reflexivity.
  - destruct x as [|s|msg y|y] eqn:Ex.
    + exists "retryable: <nil>"%string. reflexivity.
    + destruct IH as [m Hm]; [discriminate|].
      exists ("retryable: " ++ m)%string.
      rewrite Error_retryableError by discriminate. rewrite Hm. reflexivity.
    + destruct IH as [m Hm]; [discriminate|].
      exists ("retryable: " ++ m)%string.
      rewrite Error_retryableError by discriminate. rewrite Hm. reflexivity.
    + destruct IH as [m Hm]; [discriminate|].
      exists ("retryable: " ++ m)%string.
      rewrite Error_retryableError by discriminate. rewrite Hm. reflexivity.
Qed.

Lemma Error_of_marked (e : error) (m : string) :
  e <> nil -> Error e = Ok m ->
  Error (retryableError e) = Ok ("retryable: " ++ m)%string.
Proof.
  intros Hne Hm. rewrite Error_retryableError by assumption.
  rewrite Hm. reflexivity.
Qed.

(** Without a mark on the chain [errors.As] fails. *)
Lemma errors_As_unmarked (err : error) :
  (forall x, In x (chain err) -> is_marked x = false) ->
  errors_As err = None.
Proof.
  induction err as [|s|msg x IH|x IH]; intros H; cbn [errors_As].
  - reflexivity.
  - reflexivity.
  - apply IH. intros y Hy. apply H. cbn [chain]. right. exact Hy.
  - specialize (H (retryableError x)). cbn [chain] in H.
    discriminate H. left. reflexivity.
Qed.

(** [errors.As] stops at the outermost mark of the chain. *)
Lemma errors_As_outermost (err : error) :
  forall pre e rest,
    chain err = pre ++ retryableError e :: rest ->
    (forall x, In x pre -> is_marked x = false) ->
    errors_As err = Some (mkRetryableError e).
Proof.
  induction err as [|s|msg x IH|x IH]; intros pre e rest Hc Hpre;
    cbn [chain errors_As] in *.
  - destruct pre; discriminate Hc.
  - destruct pre as [|p [|q pre]]; discriminate Hc.
  - destruct pre as [|p pre]; [discriminate Hc|].
    injection Hc as _ Hc. apply (IH pre e rest Hc).
    intros y Hy. apply Hpre. right. exact Hy.
  - destruct pre as [|p pre].
    + injection Hc as Hx _. subst. reflexivity.
    + injection Hc as Hp _. specialize (Hpre p (or_introl eq_refl)).
      subst p. discriminate Hpre.
Qed.

(** Every chain is unmarked or has an outermost mark. *)
Lemma chain_mark_cases (err : error) :
  (forall x, In x (chain err) -> is_marked x = false) \/
  (exists pre e rest,
     chain err = pre ++ retryableError e :: rest /\
     forall x, In x pre -> is_marked x = false).
Proof.
  induction err as [|s|msg x IH|x IH]; cbn [chain].
  - left. intros x [].
  - left. intros x [<-|[]]. reflexivity.
  - destruct IH as [IH|(pre & e & rest & Hc & Hpre)].
    + left. intros y [<-|Hy]; [reflexivity|apply IH; exact Hy].
    + right. exists (wrapError msg x :: pre), e, rest. split.
      * rewrite Hc. reflexivity.
      * intros y [<-|Hy]; [reflexivity|apply Hpre; exact Hy].
  - right. exists [], x, (chain x). split; [reflexivity|intros y []].
Qed.

(** C8.  [RetryableError(nil)] is nil.  For a non-nil [e],
    [RetryableError(e)] is a non-nil retryable-marked value; its [Error()]
    string is "retryable: " followed by the message of [e]; its
    [Unwrap()] returns [e], so the chain of the marked value is the
    marked value followed by the chain of [e].  A marked value that holds
    a nil error reports "retryable: <nil>". *)
Theorem RetryableError_tags_non_nil :
  RetryableError nil = nil /\
  (forall e,
     e <> nil ->
     RetryableError e = as_error (mkRetryableError e) /\
     RetryableError e <> nil /\
     is_marked (RetryableError e) = true /\
     (exists m,
        Error e = Ok m /\
        Error (RetryableError e) = Ok ("retryable: " ++ m)%string) /\
     Unwrap (mkRetryableError e) = e /\
     errors_Unwrap (RetryableError e) = e /\
     chain (RetryableError e) = RetryableError e :: chain e) /\
  Error (as_error (mkRetryableError nil)) = Ok "retryable: <nil>"%string.
Proof.
  split; [reflexivity|]. split; [|reflexivity].
  intros e Hne.
  assert (HR : RetryableError e = retryableError e)
    by (destruct e; [contradiction| | |]; reflexivity).
  rewrite HR. repeat split.
  - discriminate.
  - destruct (Error_of_non_nil e Hne) as [m Hm]. exists m.
    split; [exact Hm|]. apply Error_of_marked; assumption.
Qed.

(** The test of the package: marking [fmt.Errorf("oops")]. *)
Lemma RetryableError_tags_non_nil_witness :
  errorString "oops" <> nil /\
  Error (RetryableError (errorString "oops")) = Ok "retryable: oops"%string /\
  errors_Unwrap (RetryableError (errorString "oops")) = errorString "oops".
Proof.
  assert (Hne : errorString "oops" <> nil) by discriminate.
  split; [exact Hne|].
  destruct RetryableError_tags_non_nil as (_ & Hmark & _).
  destruct (Hmark (errorString "oops") Hne)
    as (_ & _ & _ & (m & Hm & Hmsg) & _ & Hunwrap & _).
  split; [|exact Hunwrap].
  rewrite Hmsg. cbn [Error] in Hm. injection Hm as <-. reflexivity.
Defined.

(** ** WithRetryable *)

(** C2.  When no value on the [Unwrap] chain of [err] is a
    retryable-marked error, [WithRetryable(next).Next(err)] returns [Stop]
    with [err] itself, leaves the world and the variables of the wrapped
    backoff untouched and does so for every wrapped backoff, which is
    therefore not invoked.  When the outermost marked value on the chain
    holds [e], the call is the call [next.Next(e)]: same duration, same
    error, same effects.  Every error is of one of the two kinds. *)
Theorem WithRetryable_stops_or_unwraps
    {S : Type} (next : Backoff S) (err : error) (w : World) (s : S) :
  ((forall x, In x (chain err) -> is_marked x = false) ->
   forall other : Backoff S,
     Next (WithRetryable other) err w s = Ok ((Stop, err), w, s)) /\
  (forall pre e rest,
     chain err = pre ++ retryableError e :: rest ->
     (forall x, In x pre -> is_marked x = false) ->
     Next (WithRetryable next) err w s = Next next e w s) /\
  ((forall x, In x (chain err) -> is_marked x = false) \/
   (exists pre e rest,
      chain err = pre ++ retryableError e :: rest /\
      forall x, In x pre -> is_marked x = false)).
Proof.
  split; [|split].
  - intros Hun other. unfold WithRetryable, Next at 1.
    rewrite (errors_As_unmarked err Hun). reflexivity.
  - intros pre e rest Hc Hpre. unfold WithRetryable, Next at 1.
    rewrite (errors_As_outermost err pre e rest Hc Hpre). reflexivity.
  - apply chain_mark_cases.
Qed.

(** The tests of the package: a plain error stops at once; a marked
    [io.EOF], also under a foreign wrapper, reaches the wrapped backoff
    unwrapped. *)
Lemma WithRetryable_stops_or_unwraps_witness :
  Next (WithRetryable unreachable) (errorString "oops") (world 0 0) tt =
  Ok ((Stop, errorString "oops"), world 0 0, tt) /\
  Next (WithRetryable (constant Nanosecond))
    (wrapError "read: retryable: EOF" (RetryableError (errorString "EOF")))
    (world 0 0) tt =
  Ok ((Nanosecond, errorString "EOF"), world 0 0, tt).
Proof.
  split.
  - apply (WithRetryable_stops_or_unwraps
             unreachable (errorString "oops") (world 0 0) tt).
    intros x [<-|[]]. reflexivity.
  - destruct (WithRetryable_stops_or_unwraps (constant Nanosecond)
                (wrapError "read: retryable: EOF"
                   (RetryableError (errorString "EOF")))
                (world 0 0) tt) as (_ & H & _).
    rewrite (H [wrapError "read: retryable: EOF"
                  (RetryableError (errorString "EOF"))]
               (errorString "EOF") [errorString "EOF"]).
    + reflexivity.
    + reflexivity.
    + intros x [<-|[]]. reflexivity.
Defined.

(** C10.  [WithRetryable(next).Next(nil)] returns [Stop] with a nil
    error for every wrapped backoff, with the world and the variables of
    the wrapped backoff untouched: a nil error is handled as an unmarked
    one.  [RetryableError] maps nil to nil and marks every other error,
    and the chain of nil is empty, so nil neither is nor wraps a mark. *)
Theorem WithRetryable_nil_stops
    {S : Type} (next : Backoff S) (w : World) (s : S) :
  Next (WithRetryable next) nil w s = Ok ((Stop, nil), w, s) /\
  RetryableError nil = nil /\
  (forall e, is_marked (RetryableError e) = negb (error_is_nil e)) /\
  is_marked nil = false /\
  chain nil = [] /\
  errors_As nil = None.
Proof.
  repeat split. intros e. destruct e; reflexivity.
Qed.

(** ** WithCappedDuration *)

(** What a call of the capped backoff does, by the outcome of the wrapped
    one. *)
Lemma WithCappedDuration_run
    {S : Type} (cap : Duration) (next : Backoff S) (err : error)
    (w : World) (s : S) :
  Next (WithCappedDuration cap next) err w s =
  match Next next err w s with
  | Ok ((d, e'), w', s') =>
      Ok ((if d <? 0 then Stop
           else if (d <=? 0) || (cap <? d) then cap else d, e'), w', s')
  | Panic msg => Panic msg
  | Blocked => Blocked
  end.
Proof.
  unfold WithCappedDuration, Next at 1, bind, IsStopped, ret.
  destruct (Next next err w s) as [[[[d e'] w'] s']| |]; try reflexivity.
  destruct (d <? 0); reflexivity.
Qed.

(** C4, as stated, at a wrapped delay of zero under a cap of five
    seconds: zero is a non-stop delay and is not above the cap, yet the
    call returns the cap and not the delay. *)
Lemma WithCappedDuration_zero_delay_counterexample :
  IsStopped 0 = false /\
  0 <= 5 * Second /\
  Next (WithCappedDuration (5 * Second) (constant 0)) nil (world 0 0) tt =
  Ok ((5 * Second, nil), world 0 0, tt) /\
  5 * Second <> 0.
Proof.
  repeat split; try reflexivity; unfold Second; lia.
Qed.

(** C4, amended.  For a non-stop delay [d] of the wrapped backoff,
    [WithCappedDuration(cap, next).Next] returns [cap] when [d > cap] or
    [d = 0], and [d] itself when [0 < d <= cap]; a stop of the wrapped
    backoff (any negative delay) comes out as [Stop].  The error, the
    world and the variables are those the wrapped backoff returned. *)
Theorem WithCappedDuration_caps_or_keeps
    {S : Type} (cap : Duration) (next : Backoff S) (err : error)
    (w : World) (s : S) (d : Duration) (e' : error) (w' : World) (s' : S) :
  Next next err w s = Ok ((d, e'), w', s') ->
  (d < 0 ->
   Next (WithCappedDuration cap next) err w s = Ok ((Stop, e'), w', s')) /\
  (cap < d \/ d = 0 ->
   0 <= d ->
   Next (WithCappedDuration cap next) err w s = Ok ((cap, e'), w', s')) /\
  (0 < d <= cap ->
   Next (WithCappedDuration cap next) err w s = Ok ((d, e'), w', s')).
Proof.
  intros Hnext. rewrite WithCappedDuration_run, Hnext.
  split; [|split].
  - intros Hd. destruct (d <? 0) eqn:E; [reflexivity|].
    apply Z.ltb_ge in E. lia.
  - intros Hcase Hd. destruct (d <? 0) eqn:E; [apply Z.ltb_lt in E; lia|].
    destruct (d <=? 0) eqn:E1; [reflexivity|].
    destruct (cap <? d) eqn:E2; [reflexivity|].
    apply Z.leb_gt in E1. apply Z.ltb_ge in E2. lia.
  - intros Hd. destruct (d <? 0) eqn:E; [apply Z.ltb_lt in E; lia|].
    destruct (d <=? 0) eqn:E1; [apply Z.leb_le in E1; lia|].
    destruct (cap <? d) eqn:E2; [apply Z.ltb_lt in E2; lia|].
    reflexivity.
Qed.

(** The test of the package (five seconds capped at three), a delay under
    the cap, a zero delay and a stop. *)
Lemma WithCappedDuration_caps_or_keeps_witness :
  Next (WithCappedDuration (3 * Second) (constant (5 * Second))) nil
    (world 0 0) tt = Ok ((3 * Second, nil), world 0 0, tt) /\
  Next (WithCappedDuration (3 * Second) (constant 0)) nil
    (world 0 0) tt = Ok ((3 * Second, nil), world 0 0, tt) /\
  Next (WithCappedDuration (3 * Second) (constant Second)) nil
    (world 0 0) tt = Ok ((Second, nil), world 0 0, tt) /\
  Next (WithCappedDuration (3 * Second) (constant (-7))) nil
    (world 0 0) tt = Ok ((Stop, nil), world 0 0, tt).
Proof.
  split; [|split; [|split]].
  - apply (WithCappedDuration_caps_or_keeps (3 * Second)
             (constant (5 * Second)) nil (world 0 0) tt
             (5 * Second) nil (world 0 0) tt eq_refl);
      unfold Second; lia.
  - apply (WithCappedDuration_caps_or_keeps (3 * Second)
             (constant 0) nil (world 0 0) tt 0 nil (world 0 0) tt eq_refl);
      unfold Second; lia.
  - apply (WithCappedDuration_caps_or_keeps (3 * Second)
             (constant Second) nil (world 0 0) tt
             Second nil (world 0 0) tt eq_refl);
      unfold Second; lia.
  - apply (WithCappedDuration_caps_or_keeps (3 * Second)
             (constant (-7)) nil (world 0 0) tt
             (-7) nil (world 0 0) tt eq_refl); lia.
Defined.

(** ** WithMaxDuration *)

Lemma remaining_exact (timeout : Duration) (start : Time) (w : World) :
  Int64.in_range (mono_now w - start) ->
  Int64.in_range (timeout - (mono_now w - start)) ->
  remaining timeout start w = timeout - (mono_now w - start).
Proof.
  intros Hel Hrem. unfold remaining, Int64.sub, Int64.saturate.
  unfold Int64.in_range in Hel.
  destruct (mono_now w - start <? Int64.min) eqn:E1;
    [apply Z.ltb_lt in E1; lia|].
  destruct (Int64.max <? mono_now w - start) eqn:E2;
    [apply Z.ltb_lt in E2; lia|].
  apply Int64_wrap_id. exact Hrem.
Qed.

(** What a call of the closure does, by the budget and the outcome of the
    wrapped backoff. *)
Lemma WithMaxDuration_func_run
    {S : Type} (timeout : Duration) (start : Time) (next : Backoff S)
    (err : error) (w : World) (s : S) :
  Next (WithMaxDuration_func timeout start next) err w s =
  if remaining timeout start w <=? 0 then Ok ((Stop, err), w, s)
  else
    match Next next err w s with
    | Ok ((d, e'), w', s') =>
        Ok ((if d <? 0 then Stop
             else if (d <=? 0) || (remaining timeout start w <? d)
                  then remaining timeout start w
                  else d, e'), w', s')
    | Panic msg => Panic msg
    | Blocked => Blocked
    end.
Proof.
  unfold WithMaxDuration_func, Next at 1, bind, time_Since, IsStopped, ret,
    remaining.
  destruct (Int64.sub timeout (Int64.saturate (mono_now w - start)) <=? 0);
    [reflexivity|].
  destruct (Next next err w s) as [[[[d e'] w'] s']| |]; try reflexivity.
  destruct (d <? 0); reflexivity.
Qed.

(** C3.  [WithMaxDuration(timeout, next)] reads the clock once, at
    construction, and changes nothing.  Each call of the backoff it
    returns computes [remaining = timeout - time.Since(start)] (exactly
    the difference of the readings whenever it fits a [Duration]).  If
    [remaining <= 0] the call returns [Stop] with the error it was given
    and touches neither the world nor the wrapped backoff.  Otherwise it
    delegates: a stop of the wrapped backoff comes out as [Stop], a delay
    that is non-positive or above [remaining] is replaced by [remaining],
    any other delay is returned as it is; so a returned delay is [Stop]
    or lies in (0, remaining]. *)
Theorem WithMaxDuration_within_budget
    {S : Type} (timeout : Duration) (next : Backoff S)
    (w0 : World) (s0 : S) :
  exists b : Backoff S,
    WithMaxDuration timeout next w0 s0 = Ok (b, w0, s0) /\
    forall (err : error) (w : World) (s : S),
      let rem := remaining timeout (mono_now w0) w in
      Int64.in_range rem /\
      (Int64.in_range (mono_now w - mono_now w0) ->
       Int64.in_range (timeout - (mono_now w - mono_now w0)) ->
       rem = timeout - (mono_now w - mono_now w0)) /\
      (rem <= 0 -> Next b err w s = Ok ((Stop, err), w, s)) /\
      (0 < rem ->
       Next b err w s =
       match Next next err w s with
       | Ok ((d, e'), w', s') =>
           Ok ((if d <? 0 then Stop
                else if (d <=? 0) || (rem <? d) then rem else d, e'),
               w', s')
       | Panic msg => Panic msg
       | Blocked => Blocked
       end) /\
      (forall d' e' w' s',
         Next b err w s = Ok ((d', e'), w', s') ->
         d' = Stop \/ 0 < d' <= rem).
Proof.
  exists (WithMaxDuration_func timeout (mono_now w0) next).
  split; [reflexivity|].
  intros err w s rem. subst rem.
  set (rem := remaining timeout (mono_now w0) w).
  split; [apply Int64_wrap_in_range|].
  split; [apply remaining_exact|].
  rewrite WithMaxDuration_func_run. fold rem.
  split; [|split].
  - intros Hrem. destruct (rem <=? 0) eqn:E; [reflexivity|].
    apply Z.leb_gt in E. lia.
  - intros Hrem. destruct (rem <=? 0) eqn:E; [apply Z.leb_le in E; lia|].
    reflexivity.
  - intros d' e' w' s'.
    destruct (rem <=? 0) eqn:E.
    + intros H. injection H as <- _ _ _. left. reflexivity.
    + apply Z.leb_gt in E.
      destruct (Next next err w s) as [[[[d e''] w''] s'']| |];
        try discriminate.
      intros H. injection H as <- _ _ _.
      destruct (d <? 0) eqn:E0; [left; reflexivity|]. right.
      apply Z.ltb_ge in E0.
      destruct (d <=? 0) eqn:E1; [cbn [orb]; lia|]. cbn [orb].
      apply Z.leb_gt in E1.
      destruct (rem <? d) eqn:E2; [lia|]. apply Z.ltb_ge in E2. lia.
Qed.

(** The test of the package: a budget of 250ms over a one-second
    backoff, called at construction, 200ms later and 250ms later. *)
Lemma WithMaxDuration_within_budget_witness :
  exists b : Backoff unit,
    WithMaxDuration (250 * Millisecond) (constant Second) (world 0 0) tt =
    Ok (b, world 0 0, tt) /\
    Next b nil (world 0 0) tt = Ok ((250 * Millisecond, nil), world 0 0, tt) /\
    Next b nil (world 0 (200 * Millisecond)) tt =
    Ok ((50 * Millisecond, nil), world 0 (200 * Millisecond), tt) /\
    Next b nil (world 0 (250 * Millisecond)) tt =
    Ok ((Stop, nil), world 0 (250 * Millisecond), tt).
Proof.
  destruct (WithMaxDuration_within_budget (250 * Millisecond)
              (constant Second) (world 0 0) tt) as (b & Hb & Hcall).
  exists b. split; [exact Hb|].
  split; [|split].
  - destruct (Hcall nil (world 0 0) tt) as (_ & _ & _ & H & _).
    rewrite H; [reflexivity|]. vm_compute. reflexivity.
  - destruct (Hcall nil (world 0 (200 * Millisecond)) tt)
      as (_ & _ & _ & H & _).
    rewrite H; [reflexivity|]. vm_compute. reflexivity.
  - destruct (Hcall nil (world 0 (250 * Millisecond)) tt)
      as (_ & _ & H & _).
    apply H. vm_compute. discriminate.
Defined.

(** ** WithJitter *)

(** What a call of the jittered backoff does, by the outcome of the
    wrapped one and the next draw of the random source. *)
Lemma WithJitter_run
    {S : Type} (j : Duration) (next : Backoff S) (err : error)
    (w : World) (s : S) :
  Next (WithJitter j next) err w s =
  match Next next err w s with
  | Ok ((d, e'), w', s') =>
      if d <? 0 then Ok ((Stop, e'), w', s')
      else if Int64.mul j 2 <=? 0 then Panic "invalid argument to Int63n"
      else
        let r := rand_draws w' (rand_pos w') mod Int64.mul j 2 in
        let delay := Int64.add d (Int64.sub r j) in
        Ok ((if delay <? 0 then 0 else delay, e'), drawn w', s')
  | Panic msg => Panic msg
  | Blocked => Blocked
  end.
Proof.
  unfold WithJitter, Next at 1, bind, IsStopped, ret, rand_Int63n.
  destruct (Next next err w s) as [[[[d e'] w'] s']| |]; try reflexivity.
  destruct (d <? 0); [reflexivity|].
  destruct (Int64.mul j 2 <=? 0); reflexivity.
Qed.

(** With [0 < j < 2^62] and a delay [0 <= d] such that [d + j] fits, no
    step of the computation wraps around. *)
Lemma WithJitter_in_range
    {S : Type} (j : Duration) (next : Backoff S) (err : error)
    (w : World) (s : S) (d : Duration) (e' : error) (w' : World) (s' : S) :
  Next next err w s = Ok ((d, e'), w', s') ->
  0 <= d -> 0 < j < 2 ^ 62 -> d + j <= 2 ^ 63 ->
  let r := rand_draws w' (rand_pos w') mod (2 * j) in
  0 <= r < 2 * j /\
  Next (WithJitter j next) err w s =
  Ok ((Z.max 0 (d + (r - j)), e'), drawn w', s').
Proof.
  intros Hnext Hd Hj Hfit r.
  assert (Hr : 0 <= r < 2 * j) by (apply Z.mod_pos_bound; lia).
  split; [exact Hr|].
  rewrite WithJitter_run, Hnext.
  destruct (d <? 0) eqn:E; [apply Z.ltb_lt in E; lia|].
  assert (Hmul : Int64.mul j 2 = 2 * j).
  { unfold Int64.mul. rewrite Int64_wrap_id; [lia|].
    unfold Int64.in_range, Int64.min, Int64.max. lia. }
  rewrite Hmul.
  destruct (2 * j <=? 0) eqn:E2; [apply Z.leb_le in E2; lia|].
  cbv zeta. fold r.
  assert (Hsub : Int64.sub r j = r - j).
  { unfold Int64.sub. apply Int64_wrap_id.
    unfold Int64.in_range, Int64.min, Int64.max. lia. }
  assert (Hadd : Int64.add d (r - j) = d + (r - j)).
  { unfold Int64.add. apply Int64_wrap_id.
    unfold Int64.in_range, Int64.min, Int64.max. lia. }
  rewrite Hsub, Hadd.
  destruct (d + (r - j) <? 0) eqn:E3.
  - apply Z.ltb_lt in E3. rewrite Z.max_l by lia. reflexivity.
  - apply Z.ltb_ge in E3. rewrite Z.max_r by lia. reflexivity.
Qed.

(** C6, as stated, fails where the arithmetic leaves [int64].  With a
    spread of [2^62] nanoseconds the argument of [rand.Int63n] wraps to a
    negative number and the call panics.  With a delay of [2^63 - 1], a
    spread of 2 and the draw 3, the sum wraps, is taken for a stop and
    becomes 0, far below [d - spread]. *)
Lemma WithJitter_overflow_counterexample :
  0 < 2 ^ 62 /\ Int64.in_range (2 ^ 62) /\
  Next (WithJitter (2 ^ 62) (constant Second)) nil (world 0 0) tt =
  Panic "invalid argument to Int63n" /\
  Int64.in_range (2 ^ 63 - 1) /\
  Next (WithJitter 2 (constant (2 ^ 63 - 1))) nil (world 3 0) tt =
  Ok ((0, nil), drawn (world 3 0), tt) /\
  ~ (Z.max 0 (2 ^ 63 - 1 - 2) <= 0).
Proof.
  split; [lia|]. split; [unfold Int64.in_range, Int64.min, Int64.max; lia|].
  split; [vm_compute; reflexivity|].
  split; [unfold Int64.in_range, Int64.min, Int64.max; lia|].
  split; [vm_compute; reflexivity|lia].
Qed.

(** C6, amended.  For a spread [0 < j < 2^62] and a non-stop delay [d] of
    the wrapped backoff with [d + j <= 2^63], [WithJitter(j, next).Next]
    returns [d] plus an offset from [[-j, j)] (the draw of
    [rand.Int63n(2j)] minus [j]), with a negative sum replaced by zero;
    the result lies in [[max(0, d - j), d + j)] and is never negative.
    A stop of the wrapped backoff (any negative delay) comes out as
    [Stop], for every spread; the error is the one the wrapped backoff
    returned. *)
Theorem WithJitter_symmetric_range
    {S : Type} (j : Duration) (next : Backoff S) (err : error)
    (w : World) (s : S) (d : Duration) (e' : error) (w' : World) (s' : S) :
  Next next err w s = Ok ((d, e'), w', s') ->
  (d < 0 ->
   Next (WithJitter j next) err w s = Ok ((Stop, e'), w', s')) /\
  (0 <= d -> 0 < j < 2 ^ 62 -> d + j <= 2 ^ 63 ->
   exists offset : Z,
     offset = rand_draws w' (rand_pos w') mod (2 * j) - j /\
     - j <= offset < j /\
     Next (WithJitter j next) err w s =
     Ok ((Z.max 0 (d + offset), e'), drawn w', s') /\
     Z.max 0 (d - j) <= Z.max 0 (d + offset) < d + j /\
     0 <= Z.max 0 (d + offset)).
Proof.
  intros Hnext. split.
  - intros Hd. rewrite WithJitter_run, Hnext.
    destruct (d <? 0) eqn:E; [reflexivity|apply Z.ltb_ge in E; lia].
  - intros Hd Hj Hfit.
    destruct (WithJitter_in_range j next err w s d e' w' s'
                Hnext Hd Hj Hfit) as [Hr Hrun].
    exists (rand_draws w' (rand_pos w') mod (2 * j) - j).
    split; [reflexivity|]. split; [lia|]. split; [exact Hrun|]. lia.
Qed.

(** The test of the package: 250ms of jitter over one second, at the
    smallest and the largest draw, and a stopped wrapped backoff. *)
Lemma WithJitter_symmetric_range_witness :
  Next (WithJitter (250 * Millisecond) (constant Second)) nil
    (world 0 0) tt =
  Ok ((750 * Millisecond, nil), drawn (world 0 0), tt) /\
  Next (WithJitter (250 * Millisecond) (constant Second)) nil
    (world (500 * Millisecond - 1) 0) tt =
  Ok ((1250 * Millisecond - 1, nil),
      drawn (world (500 * Millisecond - 1) 0), tt) /\
  Next (WithJitter (250 * Millisecond) (constant Stop)) nil
    (world 0 0) tt = Ok ((Stop, nil), world 0 0, tt).
Proof.
  split; [|split].
  - destruct (WithJitter_symmetric_range (250 * Millisecond)
                (constant Second) nil (world 0 0) tt
                Second nil (world 0 0) tt eq_refl) as [_ H].
    destruct H as (offset & Hoff & _ & Hrun & _);
      [unfold Second; lia | unfold Millisecond; lia
      | unfold Second, Millisecond; lia |].
    rewrite Hrun, Hoff. reflexivity.
  - destruct (WithJitter_symmetric_range (250 * Millisecond)
                (constant Second) nil (world (500 * Millisecond - 1) 0) tt
                Second nil (world (500 * Millisecond - 1) 0) tt eq_refl)
      as [_ H].
    destruct H as (offset & Hoff & _ & Hrun & _);
      [unfold Second; lia | unfold Millisecond; lia
      | unfold Second, Millisecond; lia |].
    rewrite Hrun, Hoff. reflexivity.
  - apply (WithJitter_symmetric_range (250 * Millisecond)
             (constant Stop) nil (world 0 0) tt
             Stop nil (world 0 0) tt eq_refl).
    unfold Stop. lia.
Defined.

(** ** WithJitterPercent *)

(** What a call of the percent-jittered backoff does, by the outcome of
    the wrapped one and the next draw of the random source. *)
Lemma WithJitterPercent_run
    {S : Type} (unrepresentable : Float64.t -> Z) (j : Z)
    (next : Backoff S) (err : error) (w : World) (s : S) :
  Next (WithJitterPercent unrepresentable j next) err w s =
  match Next next err w s with
  | Ok ((d, e'), w', s') =>
      if d <? 0 then Ok ((Stop, e'), w', s')
      else if Int64.mul (Uint64.to_int64 j) 2 <=? 0
      then Panic "invalid argument to Int63n"
      else
        let r :=
          rand_draws w' (rand_pos w') mod Int64.mul (Uint64.to_int64 j) 2 in
        let top := Int64.sub r (Uint64.to_int64 j) in
        let delay := scaled unrepresentable d top in
        Ok ((if delay <? 0 then 0 else delay, e'), drawn w', s')
  | Panic msg => Panic msg
  | Blocked => Blocked
  end.
Proof.
  unfold WithJitterPercent, Next at 1, bind, IsStopped, ret, rand_Int63n,
    scaled.
  destruct (Next next err w s) as [[[[d e'] w'] s']| |]; try reflexivity.
  destruct (d <? 0); [reflexivity|].
  destruct (Int64.mul (Uint64.to_int64 j) 2 <=? 0); reflexivity.
Qed.


(** C7 at percent 0: the argument of [rand.Int63n] is [0 * 2 = 0], so
    the call panics as soon as the wrapped backoff returns a delay,
    whatever the error, the world and the platform. *)
Theorem WithJitterPercent_zero_percent_panics
    (unrepresentable : Float64.t -> Z) (err : error) (w : World) :
  Next (WithJitterPercent unrepresentable 0 (constant Second)) err w tt =
  Panic "invalid argument to Int63n".
Proof.
  rewrite WithJitterPercent_run. reflexivity.
Qed.

(** ** The jitters on the inputs of the additive-mode tests *)

(** C5 on backoff.go.  The tests and the README of the repository call
    [WithJitter(500ms, true, b)] and [WithJitterPercent(5, true, b)] over
    a one-second backoff and require results in [[1000ms, 1500ms]] and
    [[1000ms, 1050ms]]: the additive mode of the claim.  The functions of
    backoff.go take the spread (the percentage) and the wrapped backoff
    and no mode.  On these inputs, for every error, every world and with
    [r] the draw of [rand.Int63n], [WithJitter] returns [500ms + r] with
    [r] in [[0, 1000ms)], which is below the second of the wrapped
    backoff whenever [r < 500ms]; [WithJitterPercent] returns
    [(1050 - 10r)ms] with [r] in [[0, 10)], which is below the second
    whenever [r > 5]. *)
Theorem jitter_without_mode_shortens_delay
    (unrepresentable : Float64.t -> Z) (err : error) (w : World) :
  (exists r,
     r = rand_draws w (rand_pos w) mod (1000 * Millisecond) /\
     0 <= r < 1000 * Millisecond /\
     Next (WithJitter (500 * Millisecond) (constant Second)) err w tt =
     Ok ((500 * Millisecond + r, err), drawn w, tt) /\
     (500 * Millisecond + r < Second <-> r < 500 * Millisecond)) /\
  (exists r,
     r = rand_draws w (rand_pos w) mod 10 /\
     0 <= r < 10 /\
     Next (WithJitterPercent unrepresentable 5 (constant Second)) err w tt =
     Ok (((1050 - 10 * r) * Millisecond, err), drawn w, tt) /\
     ((1050 - 10 * r) * Millisecond < Second <-> 5 < r)).
Proof.
  split.
  - destruct (WithJitter_in_range (500 * Millisecond) (constant Second)
                err w tt Second err w tt eq_refl)
      as [Hr Hrun];
      [unfold Second; lia | unfold Millisecond; lia
      | unfold Second, Millisecond; lia |].
    change (2 * (500 * Millisecond)) with (1000 * Millisecond) in Hr, Hrun.
    set (r := rand_draws w (rand_pos w) mod (1000 * Millisecond)) in *.
    exists r.
    split; [reflexivity|]. split; [exact Hr|]. split.
    + assert (Hval : Z.max 0 (Second + (r - 500 * Millisecond)) =
                     500 * Millisecond + r)
        by (clearbody r; unfold Second, Millisecond in *; lia).
      rewrite Hrun, Hval. reflexivity.
    + unfold Second, Millisecond. lia.
  - exists (rand_draws w (rand_pos w) mod 10).
    assert (Hr : 0 <= rand_draws w (rand_pos w) mod 10 < 10)
      by (apply Z.mod_pos_bound; lia).
    split; [reflexivity|]. split; [exact Hr|]. split.
    + rewrite WithJitterPercent_run.
      change (Next (constant Second) err w tt) with (Ok ((Second, err), w, tt)).
      change (Int64.mul (Uint64.to_int64 5) 2) with 10.
      change (Uint64.to_int64 5) with 5.
      change (Second <? 0) with false.
      change (10 <=? 0) with false.
      cbv iota zeta.
      set (r := rand_draws w (rand_pos w) mod 10) in *.
      assert (Hcases : r = 0 \/ r = 1 \/ r = 2 \/ r = 3 \/ r = 4 \/
                       r = 5 \/ r = 6 \/ r = 7 \/ r = 8 \/ r = 9) by lia.
      clearbody r.
      destruct Hcases as [->|[->|[->|[->|[->|[->|[->|[->|[->| ->]]]]]]]]];
        vm_compute; reflexivity.
    + unfold Second, Millisecond. lia.
Qed.

(** ** Durations the decorators return *)




(** * Further properties of backoff.go *)

(** ** A stop passes through every stack *)

Lemma decorate_passes_stop
    {S : Type} (unrepresentable : Float64.t -> Z) (m : middleware)
    (next : Backoff S) (err : error) (w : World) (s : S)
    (d : Duration) (e' : error) (w' : World) (s' : S) :
  Next next err w s = Ok ((d, e'), w', s') ->
  d < 0 ->
  Next (decorate unrepresentable m next) err w s = Ok ((Stop, e'), w', s').
Proof.
  intros Hnext Hd.
  assert (E : (d <? 0) = true) by (apply Z.ltb_lt; exact Hd).
  destruct m as [j|j|cap]; cbn [decorate].
  - rewrite WithJitter_run, Hnext, E. reflexivity.
  - rewrite WithJitterPercent_run, Hnext, E. reflexivity.
  - rewrite WithCappedDuration_run, Hnext, E. reflexivity.
Qed.

(** X1.  When the wrapped backoff stops (returns any negative delay),
    every non-empty stack of [WithJitter], [WithJitterPercent] and
    [WithCappedDuration] around it returns exactly [Stop] with the error,
    the world and the variables the wrapped backoff returned: no
    decorator of the stack draws a random number, and none panics,
    whatever its spread, percentage or cap. *)
Theorem stack_passes_stop
    {S : Type} (unrepresentable : Float64.t -> Z)
    (m : middleware) (ms : list middleware)
    (next : Backoff S) (err : error) (w : World) (s : S)
    (d : Duration) (e' : error) (w' : World) (s' : S) :
  Next next err w s = Ok ((d, e'), w', s') ->
  d < 0 ->
  Next (stack unrepresentable (m :: ms) next) err w s =
  Ok ((Stop, e'), w', s').
Proof.
  intros Hnext Hd. revert m.
  induction ms as [|m' ms IH]; intros m.
  - exact (decorate_passes_stop unrepresentable m next err w s d e' w' s'
             Hnext Hd).
  - change (stack unrepresentable (m :: m' :: ms) next)
      with (decorate unrepresentable m
              (stack unrepresentable (m' :: ms) next)).
    apply (decorate_passes_stop unrepresentable m _ err w s Stop e' w' s').
    + apply IH.
    + unfold Stop. lia.
Qed.

(** A stopped backoff under jitter with a spread of zero (which panics on
    any delay), five percent and a negative cap. *)
Lemma stack_passes_stop_witness :
  Next (stack Float64.amd64 [Jitter 0; JitterPercent 5; CappedDuration (-5)]
          (constant (-7))) (errorString "oops") (world 0 0) tt =
  Ok ((Stop, errorString "oops"), world 0 0, tt).
Proof.
  apply (stack_passes_stop Float64.amd64 (Jitter 0)
           [JitterPercent 5; CappedDuration (-5)] (constant (-7))
           (errorString "oops") (world 0 0) tt
           (-7) (errorString "oops") (world 0 0) tt eq_refl).
  lia.
Defined.

(** ** Bounds of the cap *)

(** X2.  Under a cap [cap >= 0] every delay [WithCappedDuration] returns
    is [Stop] or lies in [[0, cap]], whatever the wrapped backoff returns;
    under a positive cap it is never zero, so it lies in (0, cap]. *)
Theorem WithCappedDuration_never_exceeds_cap
    {S : Type} (cap : Duration) (next : Backoff S) (err : error)
    (w : World) (s : S) (r : Duration) (e' : error) (w' : World) (s' : S) :
  0 <= cap ->
  Next (WithCappedDuration cap next) err w s = Ok ((r, e'), w', s') ->
  (r = Stop \/ 0 <= r <= cap) /\ (0 < cap -> r <> 0).
Proof.
  intros Hcap. rewrite WithCappedDuration_run.
  destruct (Next next err w s) as [[[[d e2] w2] s2]| |]; try discriminate.
  intros H. injection H as <- _ _ _.
  destruct (d <? 0) eqn:E0.
  - unfold Stop. split; [left; reflexivity|lia].
  - apply Z.ltb_ge in E0.
    destruct (d <=? 0) eqn:E1; cbn [orb].
    + split; [right; lia|lia].
    + apply Z.leb_gt in E1. destruct (cap <? d) eqn:E2.
      * split; [right; lia|lia].
      * apply Z.ltb_ge in E2. split; [right; lia|lia].
Qed.

(** Three seconds of cap over jittered seconds. *)
Lemma WithCappedDuration_never_exceeds_cap_witness :
  0 <= 3 * Second /\
  (1250 * Millisecond - 1 = Stop \/
   0 <= 1250 * Millisecond - 1 <= 3 * Second) /\
  (0 < 3 * Second -> 1250 * Millisecond - 1 <> 0).
Proof.
  assert (Hcap : 0 <= 3 * Second) by (unfold Second; lia).
  split; [exact Hcap|].
  exact (WithCappedDuration_never_exceeds_cap (3 * Second)
           (WithJitter (250 * Millisecond) (constant Second)) nil
           (world (500 * Millisecond - 1) 0) tt
           (1250 * Millisecond - 1) nil
           (drawn (world (500 * Millisecond - 1) 0)) tt Hcap eq_refl).
Defined.

(** X3.  Two caps, one around the other, act as the smaller one: for
    an outer cap [c1 >= 0] and an inner cap [c2 > 0],
    [WithCappedDuration(c1, WithCappedDuration(c2, next))] and
    [WithCappedDuration(min(c1, c2), next)] return the same on every
    call. *)
Theorem WithCappedDuration_nested_is_min
    {S : Type} (c1 c2 : Duration) (next : Backoff S) (err : error)
    (w : World) (s : S) :
  0 <= c1 -> 0 < c2 ->
  Next (WithCappedDuration c1 (WithCappedDuration c2 next)) err w s =
  Next (WithCappedDuration (Z.min c1 c2) next) err w s.
Proof.
  intros H1 H2. rewrite !WithCappedDuration_run.
  destruct (Next next err w s) as [[[[d e2] w2] s2]| |]; try reflexivity.
  destruct (d <? 0) eqn:E0; [reflexivity|]. apply Z.ltb_ge in E0.
  assert (Hin : exists r,
             (if (d <=? 0) || (c2 <? d) then c2 else d) = r /\
             0 < r <= c2 /\ (r = d \/ (r = c2 /\ (d = 0 \/ c2 < d)))).
  { destruct (d <=? 0) eqn:E1; cbn [orb].
    - apply Z.leb_le in E1. exists c2. repeat split; try lia.
    - apply Z.leb_gt in E1. destruct (c2 <? d) eqn:E2.
      + apply Z.ltb_lt in E2. exists c2. repeat split; try lia.
      + apply Z.ltb_ge in E2. exists d. repeat split; try lia. }
  destruct Hin as (r & -> & Hr & Hcase).
  destruct (r <? 0) eqn:E3; [apply Z.ltb_lt in E3; lia|].
  do 3 f_equal. f_equal.
  destruct (r <=? 0) eqn:E4; [apply Z.leb_le in E4; lia|]. cbn [orb].
  destruct (c1 <? r) eqn:E5; [apply Z.ltb_lt in E5|apply Z.ltb_ge in E5];
    destruct (d <=? 0) eqn:E6; cbn [orb];
    [apply Z.leb_le in E6|apply Z.leb_gt in E6
    |apply Z.leb_le in E6|apply Z.leb_gt in E6];
    try (destruct (Z.min c1 c2 <? d) eqn:E7;
         [apply Z.ltb_lt in E7|apply Z.ltb_ge in E7]);
    lia.
Qed.

(** A cap of two seconds inside a cap of three, over five seconds. *)
Lemma WithCappedDuration_nested_is_min_witness :
  Next (WithCappedDuration (3 * Second)
          (WithCappedDuration (2 * Second) (constant (5 * Second))))
    nil (world 0 0) tt =
  Ok ((2 * Second, nil), world 0 0, tt).
Proof.
  rewrite (WithCappedDuration_nested_is_min (3 * Second) (2 * Second)
             (constant (5 * Second)) nil (world 0 0) tt);
    [reflexivity | unfold Second; lia | unfold Second; lia].
Defined.

(** ** Jitter around a cap *)

(** X4.  Jitter applied after a cap can exceed the cap.  For a cap
    [cap > 0], a spread [0 < j < 2^62] with [cap + j <= 2^63] and a
    non-stop delay [d] of the wrapped backoff,
    [WithJitter(j, WithCappedDuration(cap, next))] returns the capped
    delay plus the offset, clamped at zero: a value below [cap + j], and
    exactly [cap + j - 1] when [d >= cap] and the draw is the largest
    one. *)
Theorem WithJitter_over_cap
    {S : Type} (j cap : Duration) (next : Backoff S) (err : error)
    (w : World) (s : S) (d : Duration) (e' : error) (w' : World) (s' : S) :
  Next next err w s = Ok ((d, e'), w', s') ->
  0 <= d -> 0 < cap -> 0 < j < 2 ^ 62 -> cap + j <= 2 ^ 63 ->
  let r := rand_draws w' (rand_pos w') mod (2 * j) in
  let c := if (d <=? 0) || (cap <? d) then cap else d in
  0 < c <= cap /\
  Next (WithJitter j (WithCappedDuration cap next)) err w s =
  Ok ((Z.max 0 (c + (r - j)), e'), drawn w', s') /\
  Z.max 0 (c + (r - j)) < cap + j /\
  (cap <= d -> r = 2 * j - 1 -> Z.max 0 (c + (r - j)) = cap + j - 1).
Proof.
  intros Hnext Hd Hcap Hj Hfit r c.
  assert (Hc : 0 < c <= cap).
  { unfold c. destruct (d <=? 0) eqn:E1; cbn [orb]; [lia|].
    apply Z.leb_gt in E1.
    destruct (cap <? d) eqn:E2; [lia|apply Z.ltb_ge in E2; lia]. }
  assert (Hcapped :
            Next (WithCappedDuration cap next) err w s = Ok ((c, e'), w', s')).
  { rewrite WithCappedDuration_run, Hnext.
    destruct (d <? 0) eqn:E0; [apply Z.ltb_lt in E0; lia|reflexivity]. }
  destruct (WithJitter_in_range j (WithCappedDuration cap next) err w s
              c e' w' s' Hcapped ltac:(lia) Hj ltac:(lia)) as [Hr Hrun].
  fold r in Hr, Hrun.
  split; [exact Hc|]. split; [exact Hrun|]. split; [lia|].
  intros Hd' Hmax.
  assert (c = cap).
  { unfold c. destruct (d <=? 0); cbn [orb]; [reflexivity|].
    destruct (cap <? d) eqn:E2; [reflexivity|apply Z.ltb_ge in E2; lia]. }
  lia.
Qed.

(** A cap of two seconds over five, then 250ms of jitter at the largest
    draw: 2.25s less one nanosecond. *)
Lemma WithJitter_over_cap_witness :
  Next (WithJitter (250 * Millisecond)
          (WithCappedDuration (2 * Second) (constant (5 * Second))))
    nil (world (500 * Millisecond - 1) 0) tt =
  Ok ((2250 * Millisecond - 1, nil),
      drawn (world (500 * Millisecond - 1) 0), tt).
Proof.
  destruct (WithJitter_over_cap (250 * Millisecond) (2 * Second)
              (constant (5 * Second)) nil
              (world (500 * Millisecond - 1) 0) tt
              (5 * Second) nil (world (500 * Millisecond - 1) 0) tt eq_refl)
    as (_ & Hrun & _);
    [unfold Second; lia | unfold Second; lia | unfold Millisecond; lia
    | unfold Second, Millisecond; lia |].
  rewrite Hrun. reflexivity.
Defined.

(** ** Spreads for which WithJitter panics *)

Lemma Int64_mul_2_not_positive (j : Z) :
  Int64.in_range j ->
  (Int64.mul j 2 <= 0 <->
   j = - 2 ^ 63 \/ - 2 ^ 62 <= j <= 0 \/ 2 ^ 62 <= j).
Proof.
  unfold Int64.in_range, Int64.min, Int64.max, Int64.mul, Int64.wrap.
  intros Hj.
  change (2 ^ 64) with 18446744073709551616.
  change (2 ^ 63) with 9223372036854775808 in *.
  change (2 ^ 62) with 4611686018427387904.
  pose proof (Z.mod_pos_bound (j * 2 + 9223372036854775808)
                18446744073709551616 ltac:(lia)) as Hm.
  pose proof (Z.div_mod (j * 2 + 9223372036854775808)
                18446744073709551616 ltac:(lia)) as Hdm.
  set (q := (j * 2 + 9223372036854775808) / 18446744073709551616) in *.
  set (m := (j * 2 + 9223372036854775808) mod 18446744073709551616) in *.
  assert (Hq : q = -1 \/ q = 0 \/ q = 1) by lia.
  lia.
Qed.

(** X5.  For a spread [j] (any [int64]) and a non-stop delay of the
    wrapped backoff, [WithJitter(j, next).Next] panics in
    [rand.Int63n] exactly when [j] is [-2^63], lies in [[-2^62, 0]] or is
    at least [2^62]; for every other spread it returns a non-negative
    delay and consumes one draw.  (A spread in (-2^63, -2^62) passes:
    doubling it wraps to a positive number.) *)
Theorem WithJitter_panics_exactly
    {S : Type} (j : Duration) (next : Backoff S) (err : error)
    (w : World) (s : S) (d : Duration) (e' : error) (w' : World) (s' : S) :
  Next next err w s = Ok ((d, e'), w', s') ->
  0 <= d ->
  Int64.in_range j ->
  (Next (WithJitter j next) err w s = Panic "invalid argument to Int63n" <->
   j = - 2 ^ 63 \/ - 2 ^ 62 <= j <= 0 \/ 2 ^ 62 <= j) /\
  (Next (WithJitter j next) err w s = Panic "invalid argument to Int63n" \/
   exists r,
     Next (WithJitter j next) err w s = Ok ((r, e'), drawn w', s') /\
     0 <= r).
Proof.
  intros Hnext Hd Hj.
  pose proof (Int64_mul_2_not_positive j Hj) as Hdom.
  rewrite WithJitter_run, Hnext.
  destruct (d <? 0) eqn:E0; [apply Z.ltb_lt in E0; lia|].
  destruct (Int64.mul j 2 <=? 0) eqn:E1.
  - apply Z.leb_le in E1. split; [|left; reflexivity].
    split; [intros _; apply Hdom; exact E1|reflexivity].
  - apply Z.leb_gt in E1. cbv zeta. split.
    + split; [discriminate|]. intros H. apply Hdom in H. lia.
    + right. eexists. split; [reflexivity|].
      match goal with
      | |- 0 <= (if ?x <? 0 then 0 else ?x) =>
          destruct (x <? 0) eqn:E2; [lia|apply Z.ltb_ge in E2; exact E2]
      end.
Qed.

(** A spread of zero panics; a spread of [-2^62 - 1] does not. *)
Lemma WithJitter_panics_exactly_witness :
  Next (WithJitter 0 (constant Second)) nil (world 0 0) tt =
  Panic "invalid argument to Int63n" /\
  Next (WithJitter (- 2 ^ 62 - 1) (constant Second)) nil (world 0 0) tt <>
  Panic "invalid argument to Int63n".
Proof.
  assert (H0 : Int64.in_range 0)
    by (unfold Int64.in_range, Int64.min, Int64.max; lia).
  assert (H1 : Int64.in_range (- 2 ^ 62 - 1))
    by (unfold Int64.in_range, Int64.min, Int64.max; lia).
  assert (Hs : 0 <= Second) by (unfold Second; lia).
  split.
  - apply (WithJitter_panics_exactly 0 (constant Second) nil (world 0 0) tt
             Second nil (world 0 0) tt eq_refl Hs H0).
    right. left. lia.
  - intros Hp.
    apply (WithJitter_panics_exactly (- 2 ^ 62 - 1) (constant Second) nil
             (world 0 0) tt Second nil (world 0 0) tt eq_refl Hs H1) in Hp.
    lia.
Defined.

(** ** Every offset of the jitter occurs *)

(** X6.  The range of [WithJitter] is met in full: for a spread
    [0 < j < 2^62], a delay [d >= 0] with [d + j <= 2^63] and every
    offset [k] of [[-j, j)], the draw [k + j] makes [WithJitter] over a
    backoff that returns [d] return [max(0, d + k)]; so the smallest
    result is [max(0, d - j)] and the largest [d + j - 1]. *)
Theorem WithJitter_every_offset
    (j d k now : Z) (err : error) :
  0 < j < 2 ^ 62 -> 0 <= d -> d + j <= 2 ^ 63 -> - j <= k < j ->
  Next (WithJitter j (constant d)) err (world (k + j) now) tt =
  Ok ((Z.max 0 (d + k), err), drawn (world (k + j) now), tt).
Proof.
  intros Hj Hd Hfit Hk.
  destruct (WithJitter_in_range j (constant d) err (world (k + j) now) tt
              d err (world (k + j) now) tt eq_refl Hd Hj Hfit)
    as [_ Hrun].
  rewrite Hrun. cbn [world rand_draws rand_pos].
  rewrite (Z.mod_small (k + j) (2 * j)) by lia.
  replace (k + j - j) with k by lia. reflexivity.
Qed.

(** 250ms of jitter over one second, offset -100ms. *)
Lemma WithJitter_every_offset_witness :
  Next (WithJitter (250 * Millisecond) (constant Second)) nil
    (world (150 * Millisecond) 0) tt =
  Ok ((900 * Millisecond, nil), drawn (world (150 * Millisecond) 0), tt).
Proof.
  apply (WithJitter_every_offset (250 * Millisecond) Second
           (- (100 * Millisecond)) 0 nil);
    unfold Second, Millisecond; lia.
Defined.

(** ** The deadline of WithMaxDuration *)

Lemma remaining_of_elapsed (timeout : Duration) (start : Time) (w : World) :
  0 <= timeout <= Int64.max ->
  start <= mono_now w ->
  remaining timeout start w =
  timeout - Z.min (mono_now w - start) Int64.max.
Proof.
  intros Ht Hnow. unfold remaining, Int64.sub, Int64.saturate.
  unfold Int64.min, Int64.max in *.
  destruct (mono_now w - start <? - 2 ^ 63) eqn:E1;
    [apply Z.ltb_lt in E1; lia|].
  destruct (2 ^ 63 - 1 <? mono_now w - start) eqn:E2;
    [apply Z.ltb_lt in E2|apply Z.ltb_ge in E2];
    (rewrite Int64_wrap_id;
     [|unfold Int64.in_range, Int64.min, Int64.max]; lia).
Qed.

(** X7.  For a timeout [0 <= timeout] and a clock that has not run
    backwards since construction, the backoff of [WithMaxDuration] stops
    exactly when [timeout] has elapsed: with [timeout <= now - start] a
    call returns [Stop] with the error it was given and does not touch
    the wrapped backoff (so a timeout of zero stops at once); with
    [now - start < timeout] the budget is [timeout - (now - start)] and
    the call delegates. *)
Theorem WithMaxDuration_stops_at_deadline
    {S : Type} (timeout : Duration) (start : Time) (next : Backoff S)
    (err : error) (w : World) (s : S) :
  0 <= timeout <= Int64.max ->
  start <= mono_now w ->
  (timeout <= mono_now w - start ->
   Next (WithMaxDuration_func timeout start next) err w s =
   Ok ((Stop, err), w, s)) /\
  (mono_now w - start < timeout ->
   remaining timeout start w = timeout - (mono_now w - start) /\
   Next (WithMaxDuration_func timeout start next) err w s =
   match Next next err w s with
   | Ok ((d, e'), w', s') =>
       Ok ((if d <? 0 then Stop
            else if (d <=? 0) || (timeout - (mono_now w - start) <? d)
                 then timeout - (mono_now w - start)
                 else d, e'), w', s')
   | Panic msg => Panic msg
   | Blocked => Blocked
   end).
Proof.
  intros Ht Hnow.
  pose proof (remaining_of_elapsed timeout start w Ht Hnow) as Hrem.
  rewrite WithMaxDuration_func_run. split.
  - intros Hpast.
    destruct (remaining timeout start w <=? 0) eqn:E; [reflexivity|].
    apply Z.leb_gt in E. lia.
  - intros Hleft.
    assert (Hexact : remaining timeout start w = timeout - (mono_now w - start))
      by lia.
    split; [exact Hexact|]. rewrite Hexact.
    destruct (timeout - (mono_now w - start) <=? 0) eqn:E;
      [apply Z.leb_le in E; lia|reflexivity].
Qed.

(** A budget of 250ms, 200ms and 250ms after construction. *)
Lemma WithMaxDuration_stops_at_deadline_witness :
  Next (WithMaxDuration_func (250 * Millisecond) 0 (constant Second)) nil
    (world 0 (200 * Millisecond)) tt =
  Ok ((50 * Millisecond, nil), world 0 (200 * Millisecond), tt) /\
  Next (WithMaxDuration_func (250 * Millisecond) 0 unreachable) nil
    (world 0 (250 * Millisecond)) tt =
  Ok ((Stop, nil), world 0 (250 * Millisecond), tt).
Proof.
  split.
  - destruct (WithMaxDuration_stops_at_deadline (250 * Millisecond) 0
                (constant Second) nil (world 0 (200 * Millisecond)) tt)
      as [_ H];
      [unfold Millisecond, Int64.max; lia | cbn; unfold Millisecond; lia |].
    destruct H as [_ Hrun]; [cbn; unfold Millisecond; lia|].
    rewrite Hrun. reflexivity.
  - apply (WithMaxDuration_stops_at_deadline (250 * Millisecond) 0
             unreachable nil (world 0 (250 * Millisecond)) tt);
      [unfold Millisecond, Int64.max; lia | cbn; unfold Millisecond; lia
      | cbn; unfold Millisecond; lia].
Defined.

(** X8.  For a timeout [0 <= timeout] the budget only shrinks as the
    clock advances, however far: between two readings
    [start <= now <= now'] the remaining time at [now'] is at most the
    one at [now].  So once a call has stopped because the budget was used
    up, every later call stops too, without touching the wrapped
    backoff. *)
Theorem WithMaxDuration_stays_stopped
    {S : Type} (timeout : Duration) (start : Time) (next : Backoff S)
    (w w' : World) :
  0 <= timeout <= Int64.max ->
  start <= mono_now w <= mono_now w' ->
  remaining timeout start w' <= remaining timeout start w /\
  (remaining timeout start w <= 0 ->
   forall (err : error) (s : S),
     Next (WithMaxDuration_func timeout start next) err w' s =
     Ok ((Stop, err), w', s)).
Proof.
  intros Ht Hnow.
  rewrite (remaining_of_elapsed timeout start w Ht ltac:(lia)).
  rewrite (remaining_of_elapsed timeout start w' Ht ltac:(lia)).
  split; [lia|].
  intros Hused err s. rewrite WithMaxDuration_func_run.
  rewrite (remaining_of_elapsed timeout start w' Ht ltac:(lia)).
  destruct (timeout - Z.min (mono_now w' - start) Int64.max <=? 0) eqn:E;
    [reflexivity|apply Z.leb_gt in E; lia].
Qed.

(** A budget of 250ms used up at 250ms is still used up 300 years
    later, where the elapsed time no longer fits a [Duration]. *)
Lemma WithMaxDuration_stays_stopped_witness :
  Next (WithMaxDuration_func (250 * Millisecond) 0 unreachable) nil
    (world 0 (2 ^ 63 + 5)) tt =
  Ok ((Stop, nil), world 0 (2 ^ 63 + 5), tt).
Proof.
  destruct (WithMaxDuration_stays_stopped (250 * Millisecond) 0 unreachable
              (world 0 (250 * Millisecond)) (world 0 (2 ^ 63 + 5)))
    as [_ H];
    [unfold Millisecond, Int64.max; lia | cbn; unfold Millisecond; lia |].
  apply H. vm_compute. discriminate.
Defined.

(** ** Marks under wrappers, and filters in a row *)

Lemma errors_As_wrapped_in (msgs : list string) (err : error) :
  errors_As (wrapped_in msgs err) = errors_As err.
Proof.
  induction msgs as [|msg msgs IH]; [reflexivity|exact IH].
Qed.

Lemma RetryableError_non_nil (e : error) :
  e <> nil -> RetryableError e = retryableError e.
Proof.
  intros Hne. destruct e; [contradiction| | |]; reflexivity.
Qed.

(** X9.  Marking and filtering undo each other, also through foreign
    wrappers: for a non-nil [e] under any number of wrappers around
    [RetryableError(e)], [WithRetryable(next).Next] is the call
    [next.Next(e)]; the wrapped backoff sees [e] alone, without the
    wrappers and their messages.  As [RetryableError(nil)] is nil,
    wrappers around it hold no mark: the call stops and returns the
    wrapped error as it came. *)
Theorem WithRetryable_undoes_RetryableError
    {S : Type} (next : Backoff S) (msgs : list string) (e : error)
    (w : World) (s : S) :
  (e <> nil ->
   Next (WithRetryable next) (wrapped_in msgs (RetryableError e)) w s =
   Next next e w s) /\
  Next (WithRetryable next) (wrapped_in msgs (RetryableError nil)) w s =
  Ok ((Stop, wrapped_in msgs nil), w, s).
Proof.
  split.
  - intros Hne. unfold WithRetryable, Next at 1.
    rewrite errors_As_wrapped_in, (RetryableError_non_nil e Hne).
    reflexivity.
  - unfold WithRetryable, Next at 1.
    rewrite errors_As_wrapped_in. reflexivity.
Qed.

(** A marked [io.EOF] under two wrappers. *)
Lemma WithRetryable_undoes_RetryableError_witness :
  Next (WithRetryable (constant Nanosecond))
    (wrapError "fetch: read: retryable: EOF"
       (wrapError "read: retryable: EOF"
          (RetryableError (errorString "EOF")))) (world 0 0) tt =
  Ok ((Nanosecond, errorString "EOF"), world 0 0, tt).
Proof.
  destruct (WithRetryable_undoes_RetryableError (constant Nanosecond)
              ["fetch: read: retryable: EOF"%string;
               "read: retryable: EOF"%string]
              (errorString "EOF") (world 0 0) tt) as [H _].
  exact (H ltac:(discriminate)).
Defined.

Lemma marks_non_nil (n : nat) (e : error) : e <> nil -> marks n e <> nil.
Proof.
  intros Hne. destruct n as [|n]; [exact Hne|]. cbn. discriminate.
Qed.

(** X10.  Each [WithRetryable] of a row removes one mark.  [n] filters
    around [next] hand an error that carries [n] marks to [next] without
    them; an error with fewer marks, and none further down its chain,
    is stopped on the way and comes back without the marks it had.
    For a non-nil error the marks are those [RetryableError] puts. *)
Theorem filters_remove_one_mark_each
    {S : Type} (n m : nat) (next : Backoff S) (e : error)
    (w : World) (s : S) :
  Next (filters n next) (marks n e) w s = Next next e w s /\
  ((m < n)%nat ->
   (forall x, In x (chain e) -> is_marked x = false) ->
   Next (filters n next) (marks m e) w s = Ok ((Stop, e), w, s)) /\
  (e <> nil -> Nat.iter n RetryableError e = marks n e).
Proof.
  split; [|split].
  - induction n as [|n IH]; [reflexivity|exact IH].
  - revert m. induction n as [|n IH]; intros m Hlt Hun; [lia|].
    destruct m as [|m].
    + change (Next (WithRetryable (filters n next)) e w s =
              Ok ((Stop, e), w, s)).
      unfold WithRetryable, Next at 1.
      rewrite (errors_As_unmarked e Hun). reflexivity.
    + apply (IH m); [lia|exact Hun].
  - intros Hne. induction n as [|n IH]; [reflexivity|].
    change (RetryableError (Nat.iter n RetryableError e) =
            retryableError (marks n e)).
    rewrite IH.
    apply (RetryableError_non_nil (marks n e)).
    apply marks_non_nil. exact Hne.
Qed.

(** Two filters: an error marked twice arrives, an error marked once is
    stopped and comes back unmarked. *)
Lemma filters_remove_one_mark_each_witness :
  Next (WithRetryable (WithRetryable (constant Nanosecond)))
    (RetryableError (RetryableError (errorString "oops"))) (world 0 0) tt =
  Ok ((Nanosecond, errorString "oops"), world 0 0, tt) /\
  Next (WithRetryable (WithRetryable unreachable))
    (RetryableError (errorString "oops")) (world 0 0) tt =
  Ok ((Stop, errorString "oops"), world 0 0, tt).
Proof.
  split.
  - destruct (filters_remove_one_mark_each 2 0 (constant Nanosecond)
                (errorString "oops") (world 0 0) tt) as [H _].
    exact H.
  - destruct (filters_remove_one_mark_each 2 1 unreachable
                (errorString "oops") (world 0 0) tt) as (_ & H & _).
    apply H; [lia|]. intros x [<-|[]]. reflexivity.
Defined.

(** ** WithRetryable and WithMaxRetries, in either order *)

(** X11.  The order of [WithRetryable] and [WithMaxRetries] shows in two
    places.  An error without a mark costs no retry when the filter is
    outside (the counter keeps its value), and costs one when the counter
    is outside (the counter goes up although the call stops).  And once
    the retries are used up, a marked error [RetryableError(e)] comes
    back as [e] when the filter is outside, and still marked when the
    counter is outside. *)
Theorem WithRetryable_WithMaxRetries_order
    {S : Type} (max c : Z) (next : Backoff S) (err e : error)
    (w : World) (s : S) :
  Uint64.in_range max ->
  ((forall x, In x (chain err) -> is_marked x = false) ->
   Next (WithRetryable (WithMaxRetries max next)) err w
     (mkMaxRetriesVars false c, s) =
   Ok ((Stop, err), w, (mkMaxRetriesVars false c, s)) /\
   (0 <= c < max ->
    Next (WithMaxRetries max (WithRetryable next)) err w
      (mkMaxRetriesVars false c, s) =
    Ok ((Stop, err), w, (mkMaxRetriesVars false (c + 1), s)))) /\
  (e <> nil -> max <= c ->
   Next (WithRetryable (WithMaxRetries max next)) (RetryableError e) w
     (mkMaxRetriesVars false c, s) =
   Ok ((Stop, e), w, (mkMaxRetriesVars false c, s)) /\
   Next (WithMaxRetries max (WithRetryable next)) (RetryableError e) w
     (mkMaxRetriesVars false c, s) =
   Ok ((Stop, RetryableError e), w, (mkMaxRetriesVars false c, s))).
Proof.
  intros Hmax. split.
  - intros Hun. split.
    + unfold WithRetryable at 1, Next at 1.
      rewrite (errors_As_unmarked err Hun). reflexivity.
    + intros Hc.
      rewrite (WithMaxRetries_delegates max (WithRetryable next) Hmax
                 c err w s Hc).
      unfold WithRetryable at 1, Next at 1.
      rewrite (errors_As_unmarked err Hun). reflexivity.
  - intros Hne Hc. split.
    + unfold WithRetryable at 1, Next at 1.
      rewrite (RetryableError_non_nil e Hne). cbn [errors_As Unwrap err_field].
      apply (WithMaxRetries_stops max next c e w s Hc).
    + apply (WithMaxRetries_stops max (WithRetryable next) c
               (RetryableError e) w s Hc).
Qed.

(** The tests of the package: three retries and a plain error; one retry,
    used up, and a marked [io.EOF]. *)
Lemma WithRetryable_WithMaxRetries_order_witness :
  Next (WithRetryable (WithMaxRetries 3 (constant Nanosecond)))
    (errorString "oops") (world 0 0) (maxRetriesVars_zero, tt) =
  Ok ((Stop, errorString "oops"), world 0 0, (maxRetriesVars_zero, tt)) /\
  Next (WithMaxRetries 3 (WithRetryable (constant Nanosecond)))
    (errorString "oops") (world 0 0) (maxRetriesVars_zero, tt) =
  Ok ((Stop, errorString "oops"), world 0 0, (mkMaxRetriesVars false 1, tt))
  /\
  Next (WithRetryable (WithMaxRetries 1 (constant Nanosecond)))
    (RetryableError (errorString "EOF")) (world 0 0)
    (mkMaxRetriesVars false 1, tt) =
  Ok ((Stop, errorString "EOF"), world 0 0, (mkMaxRetriesVars false 1, tt)).
Proof.
  assert (H3 : Uint64.in_range 3) by (unfold Uint64.in_range, Uint64.max; lia).
  assert (H1 : Uint64.in_range 1) by (unfold Uint64.in_range, Uint64.max; lia).
  destruct (WithRetryable_WithMaxRetries_order 3 0 (constant Nanosecond)
              (errorString "oops") nil (world 0 0) tt H3) as [Hplain _].
  destruct Hplain as [Hout Hin]; [intros x [<-|[]]; reflexivity|].
  destruct (WithRetryable_WithMaxRetries_order 1 1 (constant Nanosecond)
              nil (errorString "EOF") (world 0 0) tt H1) as [_ Hused].
  destruct Hused as [Hunwrapped _]; [discriminate|lia|].
  split; [exact Hout|]. split; [|exact Hunwrapped].
  exact (Hin ltac:(lia)).
Defined.

(** ** Decorators that commute *)

(** X12.  For a positive cap, [WithCappedDuration] and the backoff of
    [WithMaxDuration] can be stacked in either order: every call returns
    the same, and delegates to the wrapped backoff in the same cases.
    (With a cap of zero the two orders differ.) *)
Theorem WithCappedDuration_WithMaxDuration_commute
    {S : Type} (cap timeout : Duration) (start : Time) (next : Backoff S)
    (err : error) (w : World) (s : S) :
  0 < cap ->
  Next (WithCappedDuration cap (WithMaxDuration_func timeout start next))
    err w s =
  Next (WithMaxDuration_func timeout start (WithCappedDuration cap next))
    err w s.
Proof.
  intros Hcap.
  rewrite WithCappedDuration_run, !WithMaxDuration_func_run,
    WithCappedDuration_run.
  set (rem := remaining timeout start w).
  destruct (rem <=? 0) eqn:Er; [reflexivity|]. apply Z.leb_gt in Er.
  destruct (Next next err w s) as [[[[d e2] w2] s2]| |]; try reflexivity.
  destruct (d <? 0) eqn:E0; [reflexivity|]. apply Z.ltb_ge in E0.
  do 3 f_equal. f_equal.
  destruct (d <=? 0) eqn:E1; cbn [orb];
    [apply Z.leb_le in E1|apply Z.leb_gt in E1].
  - destruct (rem <? 0) eqn:E2; [apply Z.ltb_lt in E2; lia|].
    destruct (cap <? 0) eqn:E3; [apply Z.ltb_lt in E3; lia|].
    destruct (rem <=? 0) eqn:E4; [apply Z.leb_le in E4; lia|].
    destruct (cap <=? 0) eqn:E5; [apply Z.leb_le in E5; lia|].
    cbn [orb].
    destruct (cap <? rem) eqn:E6; destruct (rem <? cap) eqn:E7;
      try reflexivity;
      [apply Z.ltb_lt in E6; apply Z.ltb_lt in E7
      |apply Z.ltb_ge in E6; apply Z.ltb_ge in E7]; lia.
  - destruct (rem <? d) eqn:E2; destruct (cap <? d) eqn:E3;
      [apply Z.ltb_lt in E2; apply Z.ltb_lt in E3
      |apply Z.ltb_lt in E2; apply Z.ltb_ge in E3
      |apply Z.ltb_ge in E2; apply Z.ltb_lt in E3
      |apply Z.ltb_ge in E2; apply Z.ltb_ge in E3];
      repeat match goal with
             | |- context [?a <? ?b] =>
                 let E := fresh "E" in
                 destruct (a <? b) eqn:E;
                 [apply Z.ltb_lt in E|apply Z.ltb_ge in E]
             | |- context [?a <=? ?b] =>
                 let E := fresh "E" in
                 destruct (a <=? b) eqn:E;
                 [apply Z.leb_le in E|apply Z.leb_gt in E]
             end; cbn [orb]; try reflexivity; lia.
Qed.

(** A cap of 100ms and a budget of 250ms over one second, 200ms after
    construction: 50ms in either order. *)
Lemma WithCappedDuration_WithMaxDuration_commute_witness :
  Next (WithCappedDuration (100 * Millisecond)
          (WithMaxDuration_func (250 * Millisecond) 0 (constant Second)))
    nil (world 0 (200 * Millisecond)) tt =
  Ok ((50 * Millisecond, nil), world 0 (200 * Millisecond), tt).
Proof.
  rewrite (WithCappedDuration_WithMaxDuration_commute (100 * Millisecond)
             (250 * Millisecond) 0 (constant Second) nil
             (world 0 (200 * Millisecond)) tt);
    [reflexivity|unfold Millisecond; lia].
Defined.

(** X13.  [WithMaxRetries] commutes with [WithJitter],
    [WithJitterPercent] and [WithCappedDuration]: with the retry counter
    inside or outside the decorator, a call returns the same, leaves the
    same counter and the same world, and panics in the same cases;
    below the limit as well as once it is reached. *)
Theorem WithMaxRetries_commutes_with_decorators
    {S : Type} (unrepresentable : Float64.t -> Z) (m : middleware)
    (max c : Z) (next : Backoff S) (err : error) (w : World) (s : S) :
  Uint64.in_range max ->
  0 <= c ->
  Next (WithMaxRetries max (decorate unrepresentable m next)) err w
    (mkMaxRetriesVars false c, s) =
  Next (decorate unrepresentable m (WithMaxRetries max next)) err w
    (mkMaxRetriesVars false c, s).
Proof.
  intros Hmax Hc.
  destruct (Z.lt_ge_cases c max) as [Hlt|Hge].
  - rewrite (WithMaxRetries_delegates max _ Hmax c err w s (conj Hc Hlt)).
    destruct m as [j|j|cap]; cbn [decorate].
    + rewrite !WithJitter_run.
      rewrite (WithMaxRetries_delegates max next Hmax c err w s
                 (conj Hc Hlt)).
      destruct (Next next err w s) as [[[[d e2] w2] s2]| |]; try reflexivity.
      destruct (d <? 0); [reflexivity|].
      destruct (Int64.mul j 2 <=? 0); reflexivity.
    + rewrite !WithJitterPercent_run.
      rewrite (WithMaxRetries_delegates max next Hmax c err w s
                 (conj Hc Hlt)).
      destruct (Next next err w s) as [[[[d e2] w2] s2]| |]; try reflexivity.
      destruct (d <? 0); [reflexivity|].
      destruct (Int64.mul (Uint64.to_int64 j) 2 <=? 0); reflexivity.
    + rewrite !WithCappedDuration_run.
      rewrite (WithMaxRetries_delegates max next Hmax c err w s
                 (conj Hc Hlt)).
      destruct (Next next err w s) as [[[[d e2] w2] s2]| |]; reflexivity.
  - rewrite (WithMaxRetries_stops max _ c err w s Hge).
    symmetry.
    apply (decorate_passes_stop unrepresentable m _ err w
             (mkMaxRetriesVars false c, s) Stop err w
             (mkMaxRetriesVars false c, s)).
    + apply (WithMaxRetries_stops max next c err w s Hge).
    + unfold Stop. lia.
Qed.

(** Three retries and 250ms of jitter over one second, in either order,
    on the third call. *)
Lemma WithMaxRetries_commutes_with_decorators_witness :
  Next (WithMaxRetries 3 (WithJitter (250 * Millisecond) (constant Second)))
    nil (world 0 0) (mkMaxRetriesVars false 2, tt) =
  Next (WithJitter (250 * Millisecond) (WithMaxRetries 3 (constant Second)))
    nil (world 0 0) (mkMaxRetriesVars false 2, tt).
Proof.
  apply (WithMaxRetries_commutes_with_decorators Float64.amd64
           (Jitter (250 * Millisecond)) 3 2 (constant Second) nil
           (world 0 0) tt).
  - unfold Uint64.in_range, Uint64.max. lia.
  - lia.
Defined.
